(** * UDP password generator: client-side validation, wire records and
      server-side generation.

    Shallow embedding of
      UDP_client/src/libs/password/password.c   (keep_generating, control_type,
                                                 control_length)
      UDP_client/src/UDP_client.c               (handle_user_input, send_request,
                                                 receive_response, main)
      UDP_server/src/libs/password/password.c   (generate_* and generate_password)
      UDP_server/src/UDP_server.c               (handle_password_request,
                                                 receive_request, send_response, main)
      libs/protocol/protocol.h                  (constants, PasswordRequest,
                                                 PasswordResponse)

    A C [char] is an [ascii]; a [char] array is a [list ascii] indexed from 0;
    a C [int] is a [Z].  Array writes are checked: a write outside the array
    stops the run with a [Fault] that records the index and the byte. *)

From Stdlib Require Import ZArith Ascii String List Lia Bool.
From stdpp Require Import base list.
Import ListNotations.

Local Open Scope char_scope.
Local Open Scope Z_scope.

(* ------------------------------------------------------------------------- *)
(** ** Characters and C strings *)

Module C.

Definition NUL : ascii := "000".

(** Code of a character, as an [int]. *)
Definition code (c : ascii) : Z := Z.of_N (N_of_ascii c).

(** Conversion of an [int] to [char]: the low eight bits are kept. *)
Definition char_of_int (z : Z) : ascii := ascii_of_N (Z.to_N (z mod 256)).

(** A string literal as the characters before its terminator. *)
Definition lit (s : string) : list ascii := list_ascii_of_string s.

(** The C string held in an array: the characters before the first NUL
    (or the whole array if it holds none). *)
Fixpoint c_str (a : list ascii) : list ascii :=
  match a with
  | [] => []
  | c :: a' => if Ascii.eqb c NUL then [] else c :: c_str a'
  end.

Definition strlen (a : list ascii) : nat := length (c_str a).

(** <ctype.h>, "C" locale. *)
Definition isdigit (c : ascii) : bool := (48 <=? code c) && (code c <=? 57).

Definition isspace (c : ascii) : bool :=
  (code c =? 32) || ((9 <=? code c) && (code c <=? 13)).

Definition isupper (c : ascii) : bool := (65 <=? code c) && (code c <=? 90).

Definition tolower (c : ascii) : ascii :=
  if isupper c then char_of_int (code c + 32) else c.

(** [strchr s c != NULL]: the terminator is part of the string, so a search
    for NUL always succeeds. *)
Fixpoint strchr_found (s : list ascii) (c : ascii) : bool :=
  match s with
  | [] => Ascii.eqb c NUL
  | x :: s' =>
      if Ascii.eqb x NUL then Ascii.eqb c NUL
      else if Ascii.eqb x c then true
      else strchr_found s' c
  end.

(** *** atoi

    The C standard defines [atoi] as [(int) strtol (nptr, NULL, 10)] and
    leaves the result open when the value does not fit; this is the function
    of the GNU C library on a platform with 64-bit [long] (the branch of the
    sources that is not WIN32).  White space is skipped, an optional sign is
    read, then the longest run of decimal digits.  [strtol] saturates at the
    bounds of [long]; the conversion to [int] keeps the low 32 bits (two's
    complement).  For a value that fits in an [int] this is the value itself,
    on every conforming C library. *)

Definition INT_MAX : Z := 2147483647.
Definition INT_MIN : Z := -2147483648.
Definition LONG_MAX : Z := 9223372036854775807.
Definition LONG_MIN : Z := -9223372036854775808.

Definition int_of_long (z : Z) : Z := (z + 2 ^ 31) mod 2 ^ 32 - 2 ^ 31.

Definition clamp_long (z : Z) : Z := Z.max LONG_MIN (Z.min LONG_MAX z).

Definition digit_value (c : ascii) : Z := code c - 48.

(** Value of the leading run of digits, continuing from [acc]. *)
Fixpoint digits_value (acc : Z) (s : list ascii) : Z :=
  match s with
  | [] => acc
  | c :: s' =>
      if isdigit c then digits_value (10 * acc + digit_value c) s' else acc
  end.

Fixpoint skip_space (s : list ascii) : list ascii :=
  match s with
  | [] => []
  | c :: s' => if isspace c then skip_space s' else s
  end.

Definition strtol (s : list ascii) : Z :=
  let s1 := skip_space (c_str s) in
  match s1 with
  | [] => clamp_long 0
  | c :: s2 =>
      if Ascii.eqb c "-" then clamp_long (- digits_value 0 s2)
      else if Ascii.eqb c "+" then clamp_long (digits_value 0 s2)
      else clamp_long (digits_value 0 s1)
  end.

Definition atoi (s : list ascii) : Z := int_of_long (strtol s).

End C.

(* ------------------------------------------------------------------------- *)
(** ** protocol.h *)

Definition BUFFER_SIZE : Z := 1024.
Definition MAX_PASSWORD_LENGTH : Z := 32.
Definition MIN_PASSWORD_LENGTH : Z := 6.

(** [typedef struct { char type; char length[BUFFER_SIZE]; } PasswordRequest;] *)
Module PasswordRequest.
Record t : Type := mk { type : ascii; length : list ascii }.
End PasswordRequest.

(** [typedef struct { char password[MAX_PASSWORD_LENGTH + 1]; } PasswordResponse;] *)
Module PasswordResponse.
Record t : Type := mk { password : list ascii }.
End PasswordResponse.

(* ------------------------------------------------------------------------- *)
(** ** UDP_client/src/libs/password/password.c *)

Definition keep_generating (type type_for_ending : ascii) : bool :=
  negb (Ascii.eqb (C.tolower type) (C.tolower type_for_ending)).

Definition control_type (allowed_type : list ascii) (type : ascii) : bool :=
  C.strchr_found allowed_type type.

(** The scan of [control_length]: every character before the terminator is a
    decimal digit. *)
Fixpoint only_digits (length : list ascii) : bool :=
  match length with
  | [] => true
  | c :: rest =>
      if Ascii.eqb c C.NUL then true
      else if C.isdigit c then only_digits rest
      else false
  end.

Definition control_length (length : list ascii) (min_length max_length : Z) : bool :=
  if only_digits length then
    let numerical_length := C.atoi length in
    (numerical_length >=? min_length) && (numerical_length <=? max_length)
  else false.

(* ------------------------------------------------------------------------- *)
(** ** Checked array writes *)

(** Result of a run that writes into a [char] array while drawing from a
    random source with state [S]. *)
Inductive outcome (S : Type) : Type :=
| Done (st : S) (arr : list ascii)
| Fault (index : Z) (byte : ascii).
Arguments Done {S} st arr.
Arguments Fault {S} index byte.

(** [arr[i] = c]. *)
Definition store (arr : list ascii) (i : Z) (c : ascii) : option (list ascii) :=
  if (0 <=? i) && (i <? Z.of_nat (length arr))
  then Some (<[Z.to_nat i := c]> arr)
  else None.

(* ------------------------------------------------------------------------- *)
(** ** UDP_server/src/libs/password/password.c *)

Inductive PasswordType : Type := NUMERIC | ALPHA | MIXED | SECURE | UNAMBIGUOUS.

Definition secure_charset : list ascii :=
  C.lit "abcdefghijklmnopqrstuvwxyzABCDEFGHIJKLMNOPQRSTUVWXYZ0123456789!@#$%^&*()".

Definition unambiguous_charset : list ascii :=
  C.lit "abcdefghjkmnpqrtuvwxyACDEFGHJKLMNPQRTUVWXY34679!@#$%^&*()".

(** [charset[r % (sizeof(charset) - 1)]] *)
Definition charset_at (charset : list ascii) (r : Z) : ascii :=
  nth (Z.to_nat (Z.rem r (Z.of_nat (length charset)))) charset C.NUL.

(** The right-hand sides of the assignments [password[i] = ...], as functions
    of the values returned by the calls of [rand()]. *)
Definition numeric_of (r : Z) : ascii := C.char_of_int (C.code "0" + Z.rem r 10).
Definition alpha_of (r : Z) : ascii := C.char_of_int (C.code "a" + Z.rem r 26).
Definition mixed_of (r1 r2 : Z) : ascii :=
  if Z.rem r1 2 =? 0 then C.char_of_int (C.code "0" + Z.rem r2 10)
  else C.char_of_int (C.code "a" + Z.rem r2 26).
Definition secure_of (r : Z) : ascii := charset_at secure_charset r.
Definition unambiguous_of (r : Z) : ascii := charset_at unambiguous_charset r.

Section Generation.

(** The state of the C library's generator and [rand()], which returns a
    value in [0, RAND_MAX] and moves the state on. *)
Variable S : Type.
Variable rand : S -> Z * S.

Definition pick : Type := S -> ascii * S.

Definition numeric_char : pick :=
  fun st => let (r, st1) := rand st in (numeric_of r, st1).

Definition alpha_char : pick :=
  fun st => let (r, st1) := rand st in (alpha_of r, st1).

(** The condition [rand() % 2] is evaluated first; either branch then calls
    [rand()] once. *)
Definition mixed_char : pick :=
  fun st =>
    let (r1, st1) := rand st in
    let (r2, st2) := rand st1 in
    (mixed_of r1 r2, st2).

Definition secure_char : pick :=
  fun st => let (r, st1) := rand st in (secure_of r, st1).

Definition unambiguous_char : pick :=
  fun st => let (r, st1) := rand st in (unambiguous_of r, st1).

(** [for (; i < length; i++) password[i] = <pick>;] with [n] iterations
    left. *)
Fixpoint fill (p : pick) (n : nat) (i : Z) (st : S) (password : list ascii)
  : outcome S :=
  match n with
  | O => Done st password
  | Datatypes.S n' =>
      let (c, st1) := p st in
      match store password i c with
      | Some password1 => fill p n' (i + 1) st1 password1
      | None => Fault i c
      end
  end.

(** The common shape of the five generators: the loop from 0, then
    [password[length] = 0]. *)
Definition generate_with (p : pick) (st : S) (password : list ascii)
           (length : Z) : outcome S :=
  match fill p (Z.to_nat length) 0 st password with
  | Done st1 password1 =>
      match store password1 length C.NUL with
      | Some password2 => Done st1 password2
      | None => Fault length C.NUL
      end
  | Fault i c => Fault i c
  end.

Definition generate_numeric := generate_with numeric_char.
Definition generate_alpha := generate_with alpha_char.
Definition generate_mixed := generate_with mixed_char.
Definition generate_secure := generate_with secure_char.
Definition generate_unambiguous := generate_with unambiguous_char.

Definition generate_password (st : S) (password : list ascii)
           (type : PasswordType) (length : Z) : outcome S :=
  match type with
  | NUMERIC => generate_numeric st password length
  | ALPHA => generate_alpha st password length
  | MIXED => generate_mixed st password length
  | SECURE => generate_secure st password length
  | UNAMBIGUOUS => generate_unambiguous st password length
  end.

(** *** UDP_server.c: handle_password_request *)

Definition password_type_of (type : ascii) : PasswordType :=
  let t := C.tolower type in
  if Ascii.eqb t "n" then NUMERIC
  else if Ascii.eqb t "a" then ALPHA
  else if Ascii.eqb t "m" then MIXED
  else if Ascii.eqb t "s" then SECURE
  else if Ascii.eqb t "u" then UNAMBIGUOUS
  else NUMERIC.

Definition handle_password_request (st : S) (request : PasswordRequest.t)
           (response : PasswordResponse.t) : outcome S :=
  let numerical_length := C.atoi (PasswordRequest.length request) in
  let password_type := password_type_of (PasswordRequest.type request) in
  generate_password st (PasswordResponse.password response)
                    password_type numerical_length.

End Generation.

Arguments numeric_char {S} rand st.
Arguments alpha_char {S} rand st.
Arguments mixed_char {S} rand st.
Arguments secure_char {S} rand st.
Arguments unambiguous_char {S} rand st.
Arguments fill {S} p n i st password.
Arguments generate_with {S} p st password length.
Arguments generate_numeric {S} rand st password length.
Arguments generate_alpha {S} rand st password length.
Arguments generate_mixed {S} rand st password length.
Arguments generate_secure {S} rand st password length.
Arguments generate_unambiguous {S} rand st password length.
Arguments generate_password {S} rand st password type length.
Arguments handle_password_request {S} rand st request response.

(** The character producer that [generate_password] runs for a type. *)
Definition char_for {S : Type} (rand : S -> Z * S) (type : PasswordType)
  : S -> ascii * S :=
  match type with
  | NUMERIC => numeric_char rand
  | ALPHA => alpha_char rand
  | MIXED => mixed_char rand
  | SECURE => secure_char rand
  | UNAMBIGUOUS => unambiguous_char rand
  end.

(** The first [n] values returned by [rand()] from state [st]. *)
Fixpoint rand_seq {S : Type} (rand : S -> Z * S) (n : nat) (st : S) : list Z :=
  match n with
  | O => []
  | Datatypes.S n' => let (r, st1) := rand st in r :: rand_seq rand n' st1
  end.

(* ------------------------------------------------------------------------- *)
(** ** The character sets of the specification *)

Definition digits : list ascii := C.lit "0123456789".
Definition lowercase : list ascii := C.lit "abcdefghijklmnopqrstuvwxyz".
Definition uppercase : list ascii := C.lit "ABCDEFGHIJKLMNOPQRSTUVWXYZ".
Definition symbols : list ascii := C.lit "!@#$%^&*()".

(** The visually confusable characters: 0,O,o,1,l,I,i,2,Z,z,5,S,s,8,B. *)
Definition confusable : list ascii := C.lit "0Oo1lIi2Zz5Ss8B".

Definition mem (c : ascii) (l : list ascii) : bool := existsb (Ascii.eqb c) l.

(** [charsetFor] follows the table of the specification (section 4.1), not
    the code: Unambiguous is Secure's alphabet with the confusable characters
    removed. *)
Definition charsetFor (c : PasswordType) : list ascii :=
  match c with
  | NUMERIC => digits
  | ALPHA => lowercase
  | MIXED => digits ++ lowercase
  | SECURE => lowercase ++ uppercase ++ digits ++ symbols
  | UNAMBIGUOUS =>
      List.filter (fun x => negb (mem x confusable))
             (lowercase ++ uppercase ++ digits ++ symbols)
  end.

(** The class of a selector as the specification words it (section 6):
    [n], [a], [m], [s], [u] in either case, and Numeric for any other byte. *)
Definition class_of_selector (c : ascii) : PasswordType :=
  if mem c (C.lit "nN") then NUMERIC
  else if mem c (C.lit "aA") then ALPHA
  else if mem c (C.lit "mM") then MIXED
  else if mem c (C.lit "sS") then SECURE
  else if mem c (C.lit "uU") then UNAMBIGUOUS
  else NUMERIC.

(** The number a text of decimal digits denotes. *)
Definition decimal_value (text : list ascii) : Z :=
  fold_left (fun acc c => 10 * acc + C.digit_value c) text 0.

(** The random draws of [n] loop iterations, without the array. *)
Fixpoint draws {S : Type} (p : S -> ascii * S) (n : nat) (st : S)
  : list ascii * S :=
  match n with
  | O => ([], st)
  | Datatypes.S n' =>
      let (c, st1) := p st in
      let (cs, st2) := draws p n' st1 in
      (c :: cs, st2)
  end.

(** The outcomes of one position of [generate_mixed] over one full period of
    the residues it looks at: the first draw modulo 2, the second modulo
    lcm(26, 10) = 130. *)
Definition mixed_period : list ascii :=
  flat_map (fun r1 => map (fun r2 => mixed_of r1 (Z.of_nat r2)) (seq 0 130))
           [0; 1].

Definition count_mixed (P : ascii -> bool) : nat :=
  length (List.filter P mixed_period).

(** Among the first draws [0 .. m-1], those for which the position is a
    letter, the second draw being [r2]. *)
Definition letter_draws (m : nat) (r2 : Z) : nat :=
  length (List.filter (fun r1 => mem (mixed_of (Z.of_nat r1) r2) lowercase)
                      (seq 0 m)).

(** [pairs_mixed rs]: the characters [generate_mixed] writes when the calls of
    [rand()] return [rs], two calls for every position. *)
Fixpoint pairs_mixed (rs : list Z) : list ascii :=
  match rs with
  | r1 :: r2 :: rs' => mixed_of r1 r2 :: pairs_mixed rs'
  | _ => []
  end.

(** The sample generator of the C standard (7.22.2.2), as an instance of the
    random source: the state is the seed [next]. *)
Definition sample_rand (next : Z) : Z * Z :=
  let next1 := (next * 1103515245 + 12345) mod 2 ^ 32 in
  ((next1 / 65536) mod 32768, next1).

(* ------------------------------------------------------------------------- *)
(** ** The records on the wire

    [sendto (socket, record, sizeof record, ...)] sends the bytes of the
    record as they lie in memory; [recvfrom (socket, record, sizeof record,
    ...)] copies the bytes of the datagram over the record.  Both records hold
    [char]s only, so there is no padding. *)

Definition request_image (r : PasswordRequest.t) : list ascii :=
  PasswordRequest.type r :: PasswordRequest.length r.

Definition request_of_image (bytes : list ascii) : PasswordRequest.t :=
  match bytes with
  | [] => PasswordRequest.mk C.NUL []
  | t :: l => PasswordRequest.mk t l
  end.

Definition response_image (r : PasswordResponse.t) : list ascii :=
  PasswordResponse.password r.

Definition response_of_image (bytes : list ascii) : PasswordResponse.t :=
  PasswordResponse.mk bytes.

(** [sizeof (PasswordRequest)] and [sizeof (PasswordResponse)]. *)
Definition REQUEST_SIZE : Z := 1 + BUFFER_SIZE.
Definition RESPONSE_SIZE : Z := MAX_PASSWORD_LENGTH + 1.

Definition request_wf (r : PasswordRequest.t) : Prop :=
  Z.of_nat (length (PasswordRequest.length r)) = BUFFER_SIZE.

Definition response_wf (r : PasswordResponse.t) : Prop :=
  Z.of_nat (length (PasswordResponse.password r)) = RESPONSE_SIZE.

(** What the transport hands to one call of [recvfrom]. *)
Inductive recv_result : Type :=
| RecvError
| Datagram (bytes : list ascii).

(** [recvfrom] into an object: a datagram longer than the object is cut, the
    bytes of the object past a shorter datagram stay as they were.  The value
    returned is the number of bytes copied, or -1. *)
Definition recvfrom (object : list ascii) (r : recv_result) : Z * list ascii :=
  match r with
  | RecvError => (-1, object)
  | Datagram bytes =>
      (Z.of_nat (Nat.min (length bytes) (length object)),
       take (length object) bytes ++ drop (length bytes) object)
  end.

Inductive net_event : Type :=
| SendTo (datagram : list ascii)
| RecvFrom (rcv_msg_size : Z).

(* ------------------------------------------------------------------------- *)
(** ** UDP_server.c: receive_request, send_response, one pass of the loop *)

Definition receive_request (request_msg : PasswordRequest.t) (r : recv_result)
  : bool * PasswordRequest.t :=
  let (rcv_msg_size, image) := recvfrom (request_image request_msg) r in
  if rcv_msg_size <? 0 then (false, request_of_image image)
  else (true, request_of_image image).

(** [sent] is the value returned by [sendto]. *)
Definition send_response (response_msg : PasswordResponse.t) (sent : Z)
  : bool * list net_event :=
  (sent =? RESPONSE_SIZE, [SendTo (response_image response_msg)]).

Definition EXIT_SUCCESS : Z := 0.
Definition EXIT_FAILURE : Z := 1.

Inductive status (S : Type) : Type :=
| Continue (st : S)
| Exit (code : Z)
| Overrun (index : Z) (byte : ascii).
Arguments Continue {S} st.
Arguments Exit {S} code.
Arguments Overrun {S} index byte.

(** One pass of the body of [while (true)] in the server's [main].  [request]
    and [response] are the locals of the body as they are found (they are not
    initialised), [rcv] is what [recvfrom] delivers and [sent] what [sendto]
    returns. *)
Definition server_iteration {S : Type} (rand : S -> Z * S) (st : S)
           (request : PasswordRequest.t) (response : PasswordResponse.t)
           (rcv : recv_result) (sent : Z) : list net_event * status S :=
  let (received, request1) := receive_request request rcv in
  if negb received then ([], Exit EXIT_FAILURE)
  else
    match handle_password_request rand st request1 response with
    | Fault i c => ([], Overrun i c)
    | Done st1 password1 =>
        let (ok, events) := send_response (PasswordResponse.mk password1) sent in
        if negb ok then (events, Exit EXIT_FAILURE)
        else (events, Continue st1)
    end.

(** A full-size request that asks for 40 characters: type [n], length text
    "40", NUL up to the end of the array. *)
Definition overlong_request : PasswordRequest.t :=
  PasswordRequest.mk "n" (C.lit "40" ++ repeat C.NUL 1022).

(** A datagram of three bytes: type [n], length text "8" and its terminator. *)
Definition short_datagram : list ascii := C.lit "n8" ++ [C.NUL].

(** Records as a local may be found before it is assigned: NUL in the
    request, [#] in the password array. *)
Definition blank_request : PasswordRequest.t :=
  PasswordRequest.mk C.NUL (repeat C.NUL (Z.to_nat BUFFER_SIZE)).

Definition blank_response : PasswordResponse.t :=
  PasswordResponse.mk (repeat "#"%char (Z.to_nat RESPONSE_SIZE)).

(* ------------------------------------------------------------------------- *)
(** ** UDP_client.c: handle_user_input *)

(** A maximal run of characters that are not white space, and what follows. *)
Fixpoint take_word (s : list ascii) : list ascii * list ascii :=
  match s with
  | [] => ([], [])
  | c :: s' =>
      if C.isspace c then ([], s)
      else let (w, rest) := take_word s' in (c :: w, rest)
  end.

Definition EOF : Z := -1.

(** [sscanf (input, " %c %s %s", ...)]: the number of items assigned (or
    [EOF] when the input ends before the first one), the character for [%c]
    and the word for the first [%s] when they are assigned. *)
Definition sscanf_c_s_s (input : list ascii)
  : Z * option ascii * option (list ascii) :=
  match C.skip_space (C.c_str input) with
  | [] => (EOF, None, None)
  | c :: s1 =>
      match C.skip_space s1 with
      | [] => (1, Some c, None)
      | s2 =>
          let (w, s3) := take_word s2 in
          match C.skip_space s3 with
          | [] => (2, Some c, Some w)
          | _ => (3, Some c, Some w)
          end
      end
  end.

(** [strcpy (array, word)] and [sscanf]'s [%s]: the word and its terminator
    over the start of the array. *)
Definition strcpy (array word : list ascii) : list ascii :=
  word ++ C.NUL :: drop (Datatypes.S (length word)) array.

(** The buffer after [fgets (input, sizeof (input), stdin)] and
    [input[BUFFER_SIZE - 1] = 0]: a C string of at most [BUFFER_SIZE - 1]
    characters. *)
Definition input_line (contents : list ascii) : list ascii :=
  take (Z.to_nat (BUFFER_SIZE - 1)) (C.c_str contents).

Definition allowed_types : list ascii := C.lit "namsuq".

(** The checks of [handle_user_input] that follow the menu loop. *)
Definition check_user_input (arguments : Z) (password_request : PasswordRequest.t)
  : bool * PasswordRequest.t :=
  let checked (request : PasswordRequest.t) :=
    if negb (control_type allowed_types (PasswordRequest.type request))
    then (false, request)
    else if negb (control_length (PasswordRequest.length request)
                                 MIN_PASSWORD_LENGTH MAX_PASSWORD_LENGTH)
    then (false, request)
    else (true, request) in
  if arguments =? 1 then
    checked (PasswordRequest.mk (PasswordRequest.type password_request)
               (strcpy (PasswordRequest.length password_request) (C.lit "8")))
  else if negb (arguments =? 2) then (false, password_request)
  else checked password_request.

(** One pass of the body of the menu loop: the fields that [sscanf] assigns,
    then [password_request->length[BUFFER_SIZE - 1] = 0]. *)
Definition scan_user_input (input : list ascii) (password_request : PasswordRequest.t)
  : Z * PasswordRequest.t :=
  let '(arguments, type, word) := sscanf_c_s_s input in
  let type1 := default (PasswordRequest.type password_request) type in
  let length1 :=
    match word with
    | Some w => strcpy (PasswordRequest.length password_request) w
    | None => PasswordRequest.length password_request
    end in
  (arguments,
   PasswordRequest.mk type1 (<[Z.to_nat (BUFFER_SIZE - 1) := C.NUL]> length1)).

(** [inputs] holds what the buffer [input] contains after each call of
    [fgets], in order; when it is used up the run is waiting in [fgets] and
    the result is [None]. *)
Fixpoint handle_user_input (inputs : list (list ascii))
         (password_request : PasswordRequest.t)
  : option (bool * PasswordRequest.t) * list (list ascii) :=
  match inputs with
  | [] => (None, [])
  | contents :: rest =>
      let (arguments, request1) :=
        scan_user_input (input_line contents) password_request in
      if Ascii.eqb (C.tolower (PasswordRequest.type request1)) "h"
      then handle_user_input rest request1
      else (Some (check_user_input arguments request1), rest)
  end.

(** *** UDP_client.c: send_request, receive_response, main *)

Definition send_request (password_request : PasswordRequest.t) (sent : Z)
  : bool * list net_event :=
  (sent =? REQUEST_SIZE, [SendTo (request_image password_request)]).

Definition receive_response (response_msg : PasswordResponse.t) (r : recv_result)
  : bool * PasswordResponse.t * list net_event :=
  let (rcv_msg_size, image) := recvfrom (response_image response_msg) r in
  if rcv_msg_size <? 0 then (false, response_of_image image, [RecvFrom rcv_msg_size])
  else (true, response_of_image image, [RecvFrom rcv_msg_size]).

(** What the network does for one exchange: the value returned by [sendto]
    and what [recvfrom] delivers. *)
Record exchange : Type := { sent : Z; reply : recv_result }.

Inductive client_end : Type :=
| Returned (code : Z)
| Waiting
| OutOfFuel.

(** The loop of the client's [main]; [net k] is the network's part in the
    [k]-th exchange.  Every pass reads at least one line, so [fuel] above the
    number of lines is never used up. *)
Fixpoint client_loop (fuel : nat) (inputs : list (list ascii))
         (net : nat -> exchange) (k : nat)
         (password_request : PasswordRequest.t) (response_msg : PasswordResponse.t)
  : list net_event * client_end :=
  match fuel with
  | O => ([], OutOfFuel)
  | Datatypes.S fuel' =>
      match handle_user_input inputs password_request with
      | (None, _) => ([], Waiting)
      | (Some (false, request1), rest) =>
          client_loop fuel' rest net k request1 response_msg
      | (Some (true, request1), rest) =>
          if negb (keep_generating (PasswordRequest.type request1) "q")
          then ([], Returned EXIT_SUCCESS)
          else
            let (sent_ok, ev1) := send_request request1 (sent (net k)) in
            if negb sent_ok then (ev1, Returned EXIT_FAILURE)
            else
              let '(received, response1, ev2) :=
                receive_response response_msg (reply (net k)) in
              if negb received then (ev1 ++ ev2, Returned EXIT_FAILURE)
              else
                let (events, e) :=
                  client_loop fuel' rest net (Datatypes.S k) request1 response1 in
                (ev1 ++ ev2 ++ events, e)
      end
  end.

Definition client_main (inputs : list (list ascii)) (net : nat -> exchange)
           (password_request : PasswordRequest.t) (response_msg : PasswordResponse.t)
  : list net_event * client_end :=
  client_loop (Datatypes.S (length inputs)) inputs net 0 password_request response_msg.

(** A request is acceptable for sending: what [handle_user_input] checks, and
    not the stop letter. *)
Definition sendable (r : PasswordRequest.t) : Prop :=
  control_type allowed_types (PasswordRequest.type r) = true /\
  control_length (PasswordRequest.length r)
                 MIN_PASSWORD_LENGTH MAX_PASSWORD_LENGTH = true /\
  PasswordRequest.type r <> "q" /\ PasswordRequest.type r <> "Q".

Definition event_ok (e : net_event) : Prop :=
  match e with
  | SendTo datagram =>
      exists r, datagram = request_image r /\ sendable r /\
                In (PasswordRequest.type r) (C.lit "namsu")
  | RecvFrom _ => True
  end.


(* ------------------------------------------------------------------------- *)
(** ** Further definitions: calls of [rand()], words and lines *)

(** The state of the generator after [n] calls of [rand()]. *)
Fixpoint rand_state {S : Type} (rand : S -> Z * S) (n : nat) (st : S) : S :=
  match n with
  | O => st
  | Datatypes.S n' => rand_state rand n' (snd (rand st))
  end.

(** Calls of [rand()] in one pass of the loop of the generator for a type. *)
Definition calls_per_char (type : PasswordType) : nat :=
  match type with
  | MIXED => 2
  | _ => 1
  end.

Definition newline : ascii := "010".

(** A word for [%s]: no white space and no terminator in it. *)
Definition is_word (w : list ascii) : bool :=
  forallb (fun c => negb (C.isspace c) && negb (Ascii.eqb c C.NUL)) w.

(** The line the user types for a type and a length: the two separated by a
    blank and followed by the newline that [fgets] keeps. *)
Definition command_line (type : ascii) (word : list ascii) : list ascii :=
  type :: " " :: word ++ [newline].

(** The events of a trace come in pairs, a [SendTo] then the [RecvFrom] that
    answers it, except that the last [SendTo] may stay without answer. *)
Fixpoint alternating (events : list net_event) : bool :=
  match events with
  | [] => true
  | [SendTo _] => true
  | SendTo _ :: RecvFrom _ :: rest => alternating rest
  | _ => false
  end.

(** The network works for every exchange: [sendto] sends the whole request
    and [recvfrom] delivers a datagram. *)
Definition network_works (net : nat -> exchange) : Prop :=
  forall k, sent (net k) = REQUEST_SIZE /\ exists bytes, reply (net k) = Datagram bytes.

(* ------------------------------------------------------------------------- *)
(** ** UDP_server.c: the loop of main *)



(* ------------------------------------------------------------------------- *)
(** ** libs/utils/utils.c *)

(** [textColor], by the values of the enumeration. *)
Definition BLACK : Z := 0.
Definition RED : Z := 1.
Definition GREEN : Z := 2.
Definition YELLOW : Z := 3.
Definition BLUE : Z := 4.
Definition MAGENTA : Z := 5.
Definition CYAN : Z := 6.
Definition WHITE : Z := 7.
Definition RESET : Z := 8.

Definition ESC : ascii := "027".

Definition generate_ansi_color_code (color : Z) : list ascii :=
  if color =? BLACK then ESC :: C.lit "[30m"
  else if color =? RED then ESC :: C.lit "[31m"
  else if color =? GREEN then ESC :: C.lit "[32m"
  else if color =? YELLOW then ESC :: C.lit "[33m"
  else if color =? BLUE then ESC :: C.lit "[34m"
  else if color =? MAGENTA then ESC :: C.lit "[35m"
  else if color =? CYAN then ESC :: C.lit "[36m"
  else if color =? WHITE then ESC :: C.lit "[37m"
  else if color =? RESET then ESC :: C.lit "[0m"
  else ESC :: C.lit "[0m".



(** A random source that replays a list of values: [rand()] returns the head
    and leaves the tail (0 when the list is used up). *)
Definition scripted_rand (values : list Z) : Z * list Z :=
  match values with
  | [] => (0, [])
  | r :: rest => (r, rest)
  end.

(** The two facts [handle_user_input] keeps of the length array: its size,
    and the terminator in its last byte. *)
Definition length_terminated (r : PasswordRequest.t) : Prop :=
  request_wf r /\
  PasswordRequest.length r !! Z.to_nat (BUFFER_SIZE - 1) = Some C.NUL.

(** The line for a type alone, and the line with a word too many. *)
Definition type_line (type : ascii) : list ascii := [type; newline].

Definition long_command_line (type : ascii) (word extra : list ascii) : list ascii :=
  type :: " " :: word ++ " " :: extra ++ [newline].

(** The fields of a request as the user meant them: the type and the text of
    the length. *)
Definition asks_for (r : PasswordRequest.t) (type : ascii) (word : list ascii) : Prop :=
  PasswordRequest.type r = type /\ C.c_str (PasswordRequest.length r) = word.

(** A request the server can serve: the image of a record of the right size
    whose length text passed [control_length]. *)
Definition servable (datagram : list ascii) : Prop :=
  exists r,
    datagram = request_image r /\ request_wf r /\
    control_length (PasswordRequest.length r)
                   MIN_PASSWORD_LENGTH MAX_PASSWORD_LENGTH = true.

Definition servable_event (e : net_event) : Prop :=
  match e with
  | SendTo datagram => servable datagram
  | RecvFrom _ => True
  end.





(** Inputs for the statements at concrete values: a network that works, a
    pass of the server that receives a three-byte datagram, and a full-size
    request whose length text is "3x". *)
Definition working_net (k : nat) : exchange :=
  {| sent := REQUEST_SIZE; reply := Datagram [] |}.




(* ------------------------------------------------------------------------- *)
(** ** Lemmas on C strings and checked writes *)

Lemma mem_In (c : ascii) (l : list ascii) : mem c l = true <-> In c l.
Proof.
  unfold mem. rewrite existsb_exists. split.
  - intros (x & Hx & Heq). apply Ascii.eqb_eq in Heq. now subst.
  - intros Hin. exists c. split; [assumption | apply Ascii.eqb_refl].
Qed.

Lemma c_str_app_NUL (cs rest : list ascii) :
  ~ In C.NUL cs -> C.c_str (cs ++ C.NUL :: rest) = cs.
Proof.
  induction cs as [|c cs IH]; intros Hnot; simpl.
  - reflexivity.
  - destruct (Ascii.eqb_spec c C.NUL) as [->|_].
    + exfalso. apply Hnot. now left.
    + f_equal. apply IH. intros Hin. apply Hnot. now right.
Qed.

Lemma store_middle (pre post : list ascii) (old c : ascii) (i : Z) :
  i = Z.of_nat (length pre) ->
  store (pre ++ old :: post) i c = Some (pre ++ c :: post).
Proof.
  intros ->. unfold store.
  assert (Hin : Z.of_nat (length pre) < Z.of_nat (length (pre ++ old :: post))).
  { rewrite length_app. simpl length. lia. }
  destruct (Z.leb_spec 0 (Z.of_nat (length pre))); [|lia].
  destruct (Z.ltb_spec (Z.of_nat (length pre)) (Z.of_nat (length (pre ++ old :: post))));
    [|lia].
  simpl. rewrite Nat2Z.id. f_equal.
  rewrite insert_app_r_alt by lia.
  now rewrite Nat.sub_diag.
Qed.

Lemma store_outside (arr : list ascii) (i : Z) (c : ascii) :
  i < 0 \/ Z.of_nat (length arr) <= i -> store arr i c = None.
Proof.
  intros H. unfold store.
  destruct (0 <=? i) eqn:E1; destruct (i <? Z.of_nat (length arr)) eqn:E2;
    simpl; try reflexivity; lia.
Qed.

Lemma draws_length {S : Type} (p : S -> ascii * S) (n : nat) (st : S) :
  length (fst (draws p n st)) = n.
Proof.
  revert st. induction n as [|n IH]; intros st; simpl.
  - reflexivity.
  - destruct (p st) as [c st1]. specialize (IH st1).
    destruct (draws p n st1) as [cs st2]. simpl in *. now rewrite IH.
Qed.

Lemma draws_Forall {S : Type} (P : ascii -> Prop) (p : S -> ascii * S) :
  (forall st, P (fst (p st))) ->
  forall n st, Forall P (fst (draws p n st)).
Proof.
  intros Hp. induction n as [|n IH]; intros st; simpl.
  - constructor.
  - specialize (Hp st). destruct (p st) as [c st1]. specialize (IH st1).
    destruct (draws p n st1) as [cs st2]. simpl in *. now constructor.
Qed.

Section FillLemmas.

Context {S : Type}.
Variable p : S -> ascii * S.

(** The loop overwrites the [n] cells that follow the prefix already
    written, with the characters drawn, and nothing else. *)
Lemma fill_writes (n : nat) :
  forall (pre mid post : list ascii) (st : S),
    length mid = n ->
    fill p n (Z.of_nat (length pre)) st (pre ++ mid ++ post)
    = Done (snd (draws p n st)) (pre ++ fst (draws p n st) ++ post).
Proof.
  induction n as [|n IH]; intros pre mid post st Hlen.
  - destruct mid; [reflexivity | discriminate].
  - destruct mid as [|m mid]; [discriminate|].
    simpl in Hlen. injection Hlen as Hlen.
    cbn [fill draws]. destruct (p st) as [c st1].
    change ((m :: mid) ++ post) with (m :: (mid ++ post)).
    rewrite (store_middle pre (mid ++ post) m c) by reflexivity.
    specialize (IH (pre ++ [c]) mid post st1 Hlen).
    rewrite length_app in IH. simpl length in IH.
    replace (Z.of_nat (length pre + 1)) with (Z.of_nat (length pre) + 1) in IH by lia.
    rewrite <- app_assoc in IH. simpl in IH. rewrite IH.
    destruct (draws p n st1) as [cs st2]. simpl.
    now rewrite <- app_assoc.
Qed.

(** A generator called with a length that fits the array returns it with
    the drawn characters, the terminator, and the old tail. *)
Lemma generate_with_fits (st : S) (password : list ascii) (len : Z) :
  0 <= len < Z.of_nat (length password) ->
  generate_with p st password len
  = Done (snd (draws p (Z.to_nat len) st))
         (fst (draws p (Z.to_nat len) st)
            ++ C.NUL :: drop (Datatypes.S (Z.to_nat len)) password).
Proof.
  intros Hlen. unfold generate_with.
  assert (Hn : (Z.to_nat len < length password)%nat) by lia.
  destruct (lookup_lt_is_Some_2 password (Z.to_nat len) Hn) as [x Hx].
  pose proof (take_drop_middle password (Z.to_nat len) x Hx) as Hsplit.
  rewrite <- Hsplit at 1.
  pose proof (fill_writes (Z.to_nat len) [] (take (Z.to_nat len) password)
                (x :: drop (Datatypes.S (Z.to_nat len)) password) st) as Hfill.
  cbn [app length] in Hfill. change (Z.of_nat 0) with 0 in Hfill.
  rewrite Hfill by (rewrite length_take; lia).
  rewrite store_middle; [reflexivity|].
  rewrite draws_length. lia.
Qed.

(** With a length beyond the last index the loop itself leaves the array:
    the first write outside is the character for index [length password]. *)
Lemma generate_with_overruns (st : S) (password : list ascii) (len : Z) :
  Z.of_nat (length password) < len ->
  generate_with p st password len
  = Fault (Z.of_nat (length password))
          (fst (p (snd (draws p (length password) st)))).
Proof.
  intros Hlen. unfold generate_with.
  assert (Hex : exists k, Z.to_nat len = (length password + Datatypes.S k)%nat).
  { exists (Z.to_nat len - length password - 1)%nat. lia. }
  destruct Hex as [k ->].
  assert (Hgen : forall n pre mid st0,
             length mid = n ->
             fill p (n + Datatypes.S k) (Z.of_nat (length pre)) st0 (pre ++ mid)
             = Fault (Z.of_nat (length pre + n))
                     (fst (p (snd (draws p n st0))))).
  { induction n as [|n IH]; intros pre mid st0 Hm.
    - destruct mid; [|discriminate]. rewrite app_nil_r. cbn [Nat.add fill draws snd].
      destruct (p st0) as [c st1]. rewrite store_outside by lia.
      simpl. f_equal. lia.
    - destruct mid as [|m mid]; [discriminate|]. simpl in Hm. injection Hm as Hm.
      cbn [Nat.add fill draws]. destruct (p st0) as [c st1].
      rewrite (store_middle pre mid m c) by reflexivity.
      specialize (IH (pre ++ [c]) mid st1 Hm).
      rewrite length_app in IH. simpl length in IH.
      replace (Z.of_nat (length pre + 1)) with (Z.of_nat (length pre) + 1) in IH by lia.
      rewrite <- app_assoc in IH. simpl in IH. rewrite IH.
      destruct (draws p n st1) as [cs st2]. simpl. f_equal. lia. }
  specialize (Hgen (length password) [] password st eq_refl).
  cbn [app length Nat.add] in Hgen. change (Z.of_nat 0) with 0 in Hgen.
  now rewrite Hgen.
Qed.

End FillLemmas.

(* ------------------------------------------------------------------------- *)
(** ** Datagrams and records *)

Lemma recvfrom_full (object bytes : list ascii) :
  length bytes = length object ->
  recvfrom object (Datagram bytes) = (Z.of_nat (length object), bytes).
Proof.
  intros Hlen. unfold recvfrom.
  rewrite take_ge, drop_ge by lia.
  rewrite app_nil_r. f_equal. lia.
Qed.

Lemma request_of_image_image (r : PasswordRequest.t) :
  request_of_image (request_image r) = r.
Proof. now destruct r. Qed.

Lemma request_image_length (r : PasswordRequest.t) :
  request_wf r -> Z.of_nat (length (request_image r)) = REQUEST_SIZE.
Proof.
  unfold request_wf, REQUEST_SIZE, request_image. cbn [length]. lia.
Qed.

Lemma receive_request_full (old r : PasswordRequest.t) :
  request_wf old -> request_wf r ->
  receive_request old (Datagram (request_image r)) = (true, r).
Proof.
  intros Hold Hr. unfold receive_request.
  pose proof (request_image_length old Hold) as H1.
  pose proof (request_image_length r Hr) as H2.
  rewrite recvfrom_full by lia.
  destruct (Z.ltb_spec (Z.of_nat (length (request_image old))) 0); [lia|].
  now rewrite request_of_image_image.
Qed.

(* ------------------------------------------------------------------------- *)
(** ** The characters a draw can produce *)

Lemma rem_index (r n : Z) :
  0 <= r -> 0 < n -> exists k : nat, (k < Z.to_nat n)%nat /\ Z.rem r n = Z.of_nat k.
Proof.
  intros Hr Hn. pose proof (Z.rem_bound_pos r n Hr Hn) as Hb.
  exists (Z.to_nat (Z.rem r n)). split; lia.
Qed.

Lemma digit_of_index (k : nat) :
  (k < 10)%nat -> C.char_of_int (C.code "0" + Z.of_nat k) = nth k digits C.NUL.
Proof.
  intros Hk. do 10 (destruct k as [|k]; [reflexivity|]). lia.
Qed.

Lemma lowercase_of_index (k : nat) :
  (k < 26)%nat -> C.char_of_int (C.code "a" + Z.of_nat k) = nth k lowercase C.NUL.
Proof.
  intros Hk. do 26 (destruct k as [|k]; [reflexivity|]). lia.
Qed.

Lemma numeric_of_digit (r : Z) : 0 <= r -> In (numeric_of r) digits.
Proof.
  intros Hr. destruct (rem_index r 10 Hr) as (k & Hk & E); [lia|].
  unfold numeric_of. rewrite E, digit_of_index by exact Hk.
  apply nth_In. exact Hk.
Qed.

Lemma alpha_of_lowercase (r : Z) : 0 <= r -> In (alpha_of r) lowercase.
Proof.
  intros Hr. destruct (rem_index r 26 Hr) as (k & Hk & E); [lia|].
  unfold alpha_of. rewrite E, lowercase_of_index by exact Hk.
  apply nth_In. exact Hk.
Qed.

Lemma mixed_of_branch (r1 r2 : Z) :
  mixed_of r1 r2 = if Z.rem r1 2 =? 0 then numeric_of r2 else alpha_of r2.
Proof. reflexivity. Qed.

Lemma mixed_of_digit_or_lowercase (r1 r2 : Z) :
  0 <= r2 -> In (mixed_of r1 r2) (digits ++ lowercase).
Proof.
  intros Hr. rewrite mixed_of_branch. apply in_or_app.
  destruct (Z.rem r1 2 =? 0).
  - left. now apply numeric_of_digit.
  - right. now apply alpha_of_lowercase.
Qed.

Lemma charset_at_In (charset : list ascii) (r : Z) :
  0 <= r -> charset <> [] -> In (charset_at charset r) charset.
Proof.
  intros Hr Hne. unfold charset_at.
  assert (Hlen : 0 < Z.of_nat (length charset)).
  { destruct charset; [congruence | simpl length; lia]. }
  destruct (rem_index r _ Hr Hlen) as (k & Hk & ->).
  rewrite Nat2Z.id. apply nth_In. lia.
Qed.

(** The two tables of the code are the Secure and Unambiguous sets of the
    specification. *)
Lemma secure_charset_spec : secure_charset = charsetFor SECURE.
Proof. reflexivity. Qed.

Lemma unambiguous_charset_spec : unambiguous_charset = charsetFor UNAMBIGUOUS.
Proof. vm_compute. reflexivity. Qed.

Lemma charsetFor_no_NUL (c : PasswordType) : ~ In C.NUL (charsetFor c).
Proof.
  rewrite <- mem_In. destruct c; vm_compute; discriminate.
Qed.

Lemma unambiguous_not_confusable (x : ascii) :
  In x (charsetFor UNAMBIGUOUS) -> ~ In x confusable.
Proof.
  unfold charsetFor. intros Hin Hc.
  apply filter_In in Hin. destruct Hin as [_ Hneg].
  apply mem_In in Hc. rewrite Hc in Hneg. discriminate.
Qed.

(** The two branches of [mixed_of] as indices into the tables of letters
    and digits. *)
Lemma mixed_of_table (r1 r2 : Z) :
  0 <= r1 -> 0 <= r2 ->
  mixed_of r1 r2
  = if Z.odd r1 then nth (Z.to_nat (r2 mod 26)) lowercase C.NUL
    else nth (Z.to_nat (r2 mod 10)) digits C.NUL.
Proof.
  intros H1 H2. unfold mixed_of.
  rewrite !Z.rem_mod_nonneg by lia.
  rewrite Zmod_odd.
  destruct (Z.odd r1); cbn [Z.eqb].
  - destruct (rem_index r2 26 H2) as (k & Hk & E); [lia|].
    rewrite Z.rem_mod_nonneg in E by lia. rewrite E, Nat2Z.id.
    now apply lowercase_of_index.
  - destruct (rem_index r2 10 H2) as (k & Hk & E); [lia|].
    rewrite Z.rem_mod_nonneg in E by lia. rewrite E, Nat2Z.id.
    now apply digit_of_index.
Qed.

Lemma digit_not_lowercase (k : nat) :
  (k < 10)%nat -> mem (nth k digits C.NUL) lowercase = false.
Proof.
  intros Hk. do 10 (destruct k as [|k]; [reflexivity|]). lia.
Qed.

Lemma mixed_of_letter (r1 r2 : Z) :
  0 <= r1 -> 0 <= r2 -> mem (mixed_of r1 r2) lowercase = Z.odd r1.
Proof.
  intros H1 H2. rewrite mixed_of_table by assumption.
  destruct (Z.odd r1).
  - apply mem_In, nth_In.
    pose proof (Z.mod_pos_bound r2 26 ltac:(lia)).
    change (length lowercase) with 26%nat. lia.
  - apply digit_not_lowercase.
    pose proof (Z.mod_pos_bound r2 10 ltac:(lia)). lia.
Qed.

(** Of the first draws [0 .. 2n-1], exactly [n] lead to a letter. *)
Lemma letter_draws_half (r2 : Z) :
  0 <= r2 -> forall n : nat, letter_draws (2 * n) r2 = n.
Proof.
  intros H2. unfold letter_draws. induction n as [|n IH]; [reflexivity|].
  replace (2 * Datatypes.S n)%nat with (2 * n + 2)%nat by lia.
  rewrite seq_app, List.filter_app, length_app, IH.
  cbn [seq List.filter Nat.add].
  rewrite !mixed_of_letter by lia.
  replace (Z.of_nat (2 * n)) with (2 * Z.of_nat n) by lia.
  replace (Z.of_nat (Datatypes.S (2 * n))) with (2 * Z.of_nat n + 1) by lia.
  rewrite Z.odd_even, Z.odd_odd. cbn [length]. lia.
Qed.

Section GenerationFacts.

Variable S : Type.
Variable rand : S -> Z * S.
Hypothesis rand_nonneg : forall st, 0 <= fst (rand st).

Lemma generate_password_char_for st password type len :
  generate_password rand st password type len
  = generate_with (char_for rand type) st password len.
Proof. destruct type; reflexivity. Qed.

Lemma char_for_charset (type : PasswordType) (st : S) :
  In (fst (char_for rand type st)) (charsetFor type).
Proof.
  pose proof (rand_nonneg st) as H0.
  destruct type; cbn [char_for].
  - unfold numeric_char. destruct (rand st) as [r st1]. cbn [fst] in *.
    now apply numeric_of_digit.
  - unfold alpha_char. destruct (rand st) as [r st1]. cbn [fst] in *.
    now apply alpha_of_lowercase.
  - unfold mixed_char. destruct (rand st) as [r1 st1].
    pose proof (rand_nonneg st1) as H1.
    destruct (rand st1) as [r2 st2]. cbn [fst] in *.
    now apply mixed_of_digit_or_lowercase.
  - unfold secure_char. destruct (rand st) as [r st1]. cbn [fst] in *.
    rewrite <- secure_charset_spec.
    apply charset_at_In; [assumption | discriminate].
  - unfold unambiguous_char. destruct (rand st) as [r st1]. cbn [fst] in *.
    rewrite <- unambiguous_charset_spec.
    apply charset_at_In; [assumption | discriminate].
Qed.

(** What a call that fits the array returns, for every type. *)
Lemma generate_password_fits st password type len :
  0 <= len < Z.of_nat (length password) ->
  generate_password rand st password type len
  = Done (snd (draws (char_for rand type) (Z.to_nat len) st))
         (fst (draws (char_for rand type) (Z.to_nat len) st)
            ++ C.NUL :: drop (Datatypes.S (Z.to_nat len)) password).
Proof.
  intros Hlen. rewrite generate_password_char_for.
  now apply generate_with_fits.
Qed.

Lemma drawn_in_charset type n st :
  Forall (fun x => In x (charsetFor type)) (fst (draws (char_for rand type) n st)).
Proof. apply draws_Forall. apply char_for_charset. Qed.

Lemma drawn_no_NUL type n st :
  ~ In C.NUL (fst (draws (char_for rand type) n st)).
Proof.
  intros Hin. pose proof (drawn_in_charset type n st) as Hall.
  rewrite List.Forall_forall in Hall.
  exact (charsetFor_no_NUL type (Hall _ Hin)).
Qed.

(** C1.  For every type and every length from 6 to 32, [generate_password]
    on the 33-byte password array returns normally; the array then holds a
    C string of exactly that length (no NUL before index [len], NUL at
    [len]), every character of which belongs to the character set the
    specification gives for the type; for UNAMBIGUOUS none of them is one
    of the confusable characters 0,O,o,1,l,I,i,2,Z,z,5,S,s,8,B. *)
Theorem generate_password_charset st password type len :
  Z.of_nat (length password) = MAX_PASSWORD_LENGTH + 1 ->
  MIN_PASSWORD_LENGTH <= len <= MAX_PASSWORD_LENGTH ->
  exists st1 password1,
    generate_password rand st password type len = Done st1 password1 /\
    length password1 = length password /\
    Z.of_nat (C.strlen password1) = len /\
    password1 !! Z.to_nat len = Some C.NUL /\
    Forall (fun x => In x (charsetFor type)) (C.c_str password1) /\
    (type = UNAMBIGUOUS ->
     Forall (fun x => ~ In x confusable) (C.c_str password1)).
Proof.
  unfold MAX_PASSWORD_LENGTH, MIN_PASSWORD_LENGTH. intros Hsize Hlen.
  rewrite generate_password_fits by lia.
  set (n := Z.to_nat len).
  pose proof (draws_length (char_for rand type) n st) as Hn.
  pose proof (drawn_in_charset type n st) as Hset.
  pose proof (drawn_no_NUL type n st) as Hnul.
  destruct (draws (char_for rand type) n st) as [cs st1]. cbn [fst snd] in *.
  exists st1, (cs ++ C.NUL :: drop (Datatypes.S n) password).
  split; [reflexivity|].
  assert (Hstr : C.c_str (cs ++ C.NUL :: drop (Datatypes.S n) password) = cs)
    by now apply c_str_app_NUL.
  split; [|split; [|split; [|split]]].
  - rewrite length_app. cbn [length]. rewrite length_drop. lia.
  - unfold C.strlen. rewrite Hstr. lia.
  - rewrite lookup_app_r by lia. now rewrite Hn, Nat.sub_diag.
  - now rewrite Hstr.
  - intros ->. rewrite Hstr.
    eapply List.Forall_impl; [|exact Hset].
    apply unambiguous_not_confusable.
Qed.

(** C10.  For every type and every length from 6 to 32, [generate_password]
    returns normally with an array of the same size in which index [len]
    holds NUL and every index above [len] holds the byte it held before the
    call: only the indices 0 to [len] are written. *)
Theorem generate_password_frame st password type len :
  Z.of_nat (length password) = MAX_PASSWORD_LENGTH + 1 ->
  MIN_PASSWORD_LENGTH <= len <= MAX_PASSWORD_LENGTH ->
  exists st1 password1,
    generate_password rand st password type len = Done st1 password1 /\
    length password1 = length password /\
    password1 !! Z.to_nat len = Some C.NUL /\
    forall i : nat, (Z.to_nat len < i)%nat -> password1 !! i = password !! i.
Proof.
  unfold MAX_PASSWORD_LENGTH, MIN_PASSWORD_LENGTH. intros Hsize Hlen.
  rewrite generate_password_fits by lia.
  set (n := Z.to_nat len).
  pose proof (draws_length (char_for rand type) n st) as Hn.
  destruct (draws (char_for rand type) n st) as [cs st1]. cbn [fst snd] in *.
  exists st1, (cs ++ C.NUL :: drop (Datatypes.S n) password).
  split; [reflexivity|]. split; [|split].
  - rewrite length_app. cbn [length]. rewrite length_drop. lia.
  - rewrite lookup_app_r by lia. now rewrite Hn, Nat.sub_diag.
  - intros i Hi. rewrite lookup_app_r by lia. rewrite Hn.
    destruct (i - n)%nat as [|j] eqn:Ej; [lia|].
    change ((C.NUL :: drop (Datatypes.S n) password) !! Datatypes.S j)
      with (drop (Datatypes.S n) password !! j).
    rewrite lookup_drop. f_equal. lia.
Qed.

(** A length above 33 makes the loop write the character for index 33,
    which the array does not have. *)
Lemma handle_password_request_beyond st request response :
  response_wf response ->
  MAX_PASSWORD_LENGTH + 1 < C.atoi (PasswordRequest.length request) ->
  exists c,
    handle_password_request rand st request response
    = Fault (MAX_PASSWORD_LENGTH + 1) c /\
    In c (charsetFor (password_type_of (PasswordRequest.type request))).
Proof.
  unfold response_wf, RESPONSE_SIZE. intros Hwf Hlen.
  unfold handle_password_request.
  rewrite generate_password_char_for.
  rewrite generate_with_overruns by lia.
  rewrite Hwf. eexists. split; [reflexivity|].
  apply char_for_charset.
Qed.

(** C2.  There is a full-size datagram whose length text parses to a number
    above 32 (here 40) which the server accepts and decodes, and for which
    generation leaves the 33-byte password array: the run stops at the
    write of a password character (a digit, the type being [n]) at index
    33, one past the last index 32. *)
Theorem server_overruns_password_buffer :
  exists datagram : list ascii,
    Z.of_nat (length datagram) = REQUEST_SIZE /\
    MAX_PASSWORD_LENGTH
      < C.atoi (PasswordRequest.length (request_of_image datagram)) /\
    forall st request response sent,
      request_wf request ->
      response_wf response ->
      exists c,
        server_iteration rand st request response (Datagram datagram) sent
        = ([], Overrun (MAX_PASSWORD_LENGTH + 1) c) /\
        In c digits.
Proof.
  exists (request_image overlong_request).
  split; [reflexivity|]. split; [vm_compute; reflexivity|].
  intros st request response sent Hreq Hresp.
  unfold server_iteration.
  rewrite receive_request_full by (assumption || reflexivity).
  cbn [negb].
  destruct (handle_password_request_beyond st overlong_request response Hresp)
    as (c & E & Hc); [vm_compute; reflexivity|].
  rewrite E. exists c. split; [reflexivity | exact Hc].
Qed.

Lemma draws_mixed (n : nat) :
  forall st,
    fst (draws (mixed_char rand) n st)
    = pairs_mixed (rand_seq rand (2 * n) st).
Proof.
  induction n as [|n IH]; intros st.
  - reflexivity.
  - replace (2 * Datatypes.S n)%nat with (Datatypes.S (Datatypes.S (2 * n))) by lia.
    cbn [draws rand_seq]. unfold mixed_char at 1.
    destruct (rand st) as [r1 st1]. destruct (rand st1) as [r2 st2].
    specialize (IH st2).
    destruct (draws (mixed_char rand) n st2) as [cs st3].
    cbn [fst pairs_mixed] in *. now rewrite IH.
Qed.

(** C7.  [generate_mixed] produces position [i] from two successive values
    of [rand()]: the characters written at 0 .. len-1 are [mixed_of r1 r2]
    for the pairs of successive draws.  The first value decides by its
    parity, odd for a letter and even for a digit; the second is reduced
    modulo 26 into the lowercase letters or modulo 10 into the digits.  Of
    any even number [2n] of values [0 .. 2n-1] of the first draw, exactly
    [n] lead to a letter, whatever the second draw.  The character depends
    on the draws through [r1 mod 2] and [r2 mod 130] only, and over that
    period of 2 * 130 outcomes every letter occurs 5 times and every digit
    13 times: letters and digits share the outcomes half and half (130
    each), a letter has weight 1/52 and a digit 1/20, which is not the
    equal weight of a draw over the 36 characters. *)
Theorem generate_mixed_two_stage :
  (forall st password len,
      0 <= len < Z.of_nat (length password) ->
      exists st1 password1,
        generate_mixed rand st password len = Done st1 password1 /\
        take (Z.to_nat len) password1
        = pairs_mixed (rand_seq rand (2 * Z.to_nat len) st)) /\
  (forall r1 r2,
      0 <= r1 -> 0 <= r2 ->
      mixed_of r1 r2
      = if Z.odd r1 then nth (Z.to_nat (r2 mod 26)) lowercase C.NUL
        else nth (Z.to_nat (r2 mod 10)) digits C.NUL) /\
  (forall (n : nat) r2, 0 <= r2 -> letter_draws (2 * n) r2 = n) /\
  (forall r1 r2,
      0 <= r1 -> 0 <= r2 ->
      mixed_of r1 r2 = mixed_of (r1 mod 2) (r2 mod 130)) /\
  length mixed_period = 260%nat /\
  (forall c, In c lowercase -> count_mixed (Ascii.eqb c) = 5%nat) /\
  (forall c, In c digits -> count_mixed (Ascii.eqb c) = 13%nat) /\
  count_mixed (fun c => mem c lowercase) = 130%nat /\
  count_mixed (fun c => mem c digits) = 130%nat.
Proof.
  split; [|split; [|split; [|split; [|split; [|split; [|split; [|split]]]]]]].
  - intros st password len Hlen. unfold generate_mixed.
    rewrite generate_with_fits by exact Hlen.
    pose proof (draws_length (mixed_char rand) (Z.to_nat len) st) as Hn.
    rewrite <- draws_mixed.
    destruct (draws (mixed_char rand) (Z.to_nat len) st) as [cs st1].
    cbn [fst snd] in *. eexists _, _. split; [reflexivity|].
    rewrite <- Hn. now rewrite take_app_length.
  - intros r1 r2 H1 H2. now apply mixed_of_table.
  - intros n r2 H2. now apply letter_draws_half.
  - intros r1 r2 H1 H2. unfold mixed_of.
    pose proof (Z.mod_pos_bound r1 2 ltac:(lia)).
    pose proof (Z.mod_pos_bound r2 130 ltac:(lia)).
    rewrite !Z.rem_mod_nonneg by lia.
    rewrite Zmod_mod.
    rewrite (Z.mod_mod_divide r2 130 10) by (exists 13; reflexivity).
    rewrite (Z.mod_mod_divide r2 130 26) by (exists 5; reflexivity).
    reflexivity.
  - vm_compute. reflexivity.
  - intros c Hc.
    assert (Hall : forallb (fun x => Nat.eqb (count_mixed (Ascii.eqb x)) 5)
                           lowercase = true) by (vm_compute; reflexivity).
    rewrite forallb_forall in Hall. apply Nat.eqb_eq. now apply Hall.
  - intros c Hc.
    assert (Hall : forallb (fun x => Nat.eqb (count_mixed (Ascii.eqb x)) 13)
                           digits = true) by (vm_compute; reflexivity).
    rewrite forallb_forall in Hall. apply Nat.eqb_eq. now apply Hall.
  - vm_compute. reflexivity.
  - vm_compute. reflexivity.
Qed.

End GenerationFacts.

(* ------------------------------------------------------------------------- *)
(** ** The client's checks *)

Lemma c_str_no_NUL (a : list ascii) : ~ In C.NUL (C.c_str a).
Proof.
  induction a as [|c a IH]; simpl; [tauto|].
  destruct (Ascii.eqb_spec c C.NUL) as [E|E]; simpl; [tauto|].
  intros [H|H]; [congruence | tauto].
Qed.

Lemma strchr_found_spec (s : list ascii) (c : ascii) :
  C.strchr_found s c = true <-> In c (C.c_str s) \/ c = C.NUL.
Proof.
  induction s as [|x s IH]; simpl.
  - rewrite Ascii.eqb_eq. tauto.
  - destruct (Ascii.eqb_spec x C.NUL) as [E|E]; simpl.
    + rewrite Ascii.eqb_eq. tauto.
    + destruct (Ascii.eqb_spec x c) as [E1|E1].
      * subst. tauto.
      * rewrite IH. intuition congruence.
Qed.

(** C3, as the code has it.  [control_type] with the set that
    [handle_user_input] passes, "namsuq", is true for exactly the lowercase
    letters n, a, m, s, u, for the stop letter q and for NUL (which [strchr]
    finds at the terminator); the comparison is case-sensitive, so it is
    false for N, A, M, S, U, Q and for every other character. *)
Theorem control_type_allowed (c : ascii) :
  control_type allowed_types c = true
  <-> In c (C.lit "namsuq") \/ c = C.NUL.
Proof.
  unfold control_type. rewrite strchr_found_spec. reflexivity.
Qed.

(** C3 as claimed fails: the uppercase [N] is a class letter, read without
    case, and is rejected; [q] is not a class letter and is accepted. *)
Lemma control_type_is_case_sensitive :
  (In (C.tolower "N") (C.lit "namsu") /\ control_type allowed_types "N" = false) /\
  (~ In (C.tolower "q") (C.lit "namsu") /\ control_type allowed_types "q" = true).
Proof.
  split; split; try reflexivity.
  - vm_compute. tauto.
  - vm_compute. intuition discriminate.
Qed.

(** C6.  The server's conversion of the selector is the mapping of the
    specification: n/N to NUMERIC, a/A to ALPHA, m/M to MIXED, s/S to SECURE,
    u/U to UNAMBIGUOUS, and NUMERIC for every other byte. *)
Theorem password_type_of_selector (c : ascii) :
  password_type_of c = class_of_selector c.
Proof.
  destruct c as [[] [] [] [] [] [] [] []]; reflexivity.
Qed.

Lemma only_digits_c_str (text : list ascii) :
  only_digits text = forallb C.isdigit (C.c_str text).
Proof.
  induction text as [|c text IH]; simpl; [reflexivity|].
  destruct (Ascii.eqb c C.NUL); [reflexivity|]. simpl.
  destruct (C.isdigit c); [exact IH | reflexivity].
Qed.

Lemma digits_value_decimal (s : list ascii) :
  forall acc,
    forallb C.isdigit s = true ->
    C.digits_value acc s
    = fold_left (fun a c => 10 * a + C.digit_value c) s acc.
Proof.
  induction s as [|c s IH]; intros acc Hall; simpl in *; [reflexivity|].
  apply andb_prop in Hall. destruct Hall as [Hc Hs].
  rewrite Hc. now apply IH.
Qed.

Lemma isdigit_code (c : ascii) : C.isdigit c = true -> 48 <= C.code c <= 57.
Proof. unfold C.isdigit. lia. Qed.

Lemma decimal_fold_nonneg (s : list ascii) :
  forall acc,
    forallb C.isdigit s = true -> 0 <= acc ->
    0 <= fold_left (fun a c => 10 * a + C.digit_value c) s acc.
Proof.
  induction s as [|c s IH]; intros acc Hall Hacc; simpl in *; [assumption|].
  apply andb_prop in Hall. destruct Hall as [Hc Hs].
  apply IH; [assumption|].
  apply isdigit_code in Hc. unfold C.digit_value. lia.
Qed.

Lemma int_of_long_small (z : Z) :
  C.INT_MIN <= z <= C.INT_MAX -> C.int_of_long z = z.
Proof.
  unfold C.INT_MIN, C.INT_MAX, C.int_of_long. intros H.
  rewrite Z.mod_small; lia.
Qed.

(** On a text of digits whose value fits an [int], [atoi] returns the
    value. *)
Lemma atoi_decimal (text : list ascii) :
  forallb C.isdigit (C.c_str text) = true ->
  decimal_value (C.c_str text) <= C.INT_MAX ->
  C.atoi text = decimal_value (C.c_str text).
Proof.
  intros Hall Hmax.
  assert (Hpos : 0 <= decimal_value (C.c_str text))
    by (apply decimal_fold_nonneg; [assumption | lia]).
  assert (Hclamp : C.clamp_long (decimal_value (C.c_str text))
                   = decimal_value (C.c_str text)).
  { unfold C.clamp_long, C.LONG_MIN, C.LONG_MAX, C.INT_MAX in *. lia. }
  unfold C.atoi, C.strtol.
  destruct (C.c_str text) as [|c s] eqn:E.
  - reflexivity.
  - pose proof Hall as Hall'. cbn [forallb] in Hall'.
    apply andb_prop in Hall'. destruct Hall' as [Hc _].
    pose proof (isdigit_code c Hc) as Hcode.
    assert (Hsp : C.isspace c = false).
    { unfold C.isspace. lia. }
    cbn [C.skip_space]. rewrite Hsp.
    destruct (Ascii.eqb_spec c "-") as [->|_];
      [change (C.code "-") with 45 in Hcode; lia|].
    destruct (Ascii.eqb_spec c "+") as [->|_];
      [change (C.code "+") with 43 in Hcode; lia|].
    rewrite digits_value_decimal by exact Hall.
    fold (decimal_value (c :: s)). rewrite Hclamp.
    apply int_of_long_small. unfold C.INT_MIN. lia.
Qed.

(** C4, as the code has it.  [control_length text 6 32] is false for every
    text with a character that is not a digit and for the empty text; for a
    text of digits whose value fits an [int] (at most 2147483647) it is true
    exactly when the value lies in [6, 32], so false for every such value
    outside; it is true for "6", "32" and "007", false for "abc" and "33". *)
Theorem control_length_range :
  (forall text c,
      In c (C.c_str text) -> C.isdigit c = false ->
      control_length text MIN_PASSWORD_LENGTH MAX_PASSWORD_LENGTH = false) /\
  (forall text,
      C.c_str text = [] ->
      control_length text MIN_PASSWORD_LENGTH MAX_PASSWORD_LENGTH = false) /\
  (forall text,
      forallb C.isdigit (C.c_str text) = true ->
      decimal_value (C.c_str text) <= C.INT_MAX ->
      control_length text MIN_PASSWORD_LENGTH MAX_PASSWORD_LENGTH
      = (MIN_PASSWORD_LENGTH <=? decimal_value (C.c_str text))
        && (decimal_value (C.c_str text) <=? MAX_PASSWORD_LENGTH)) /\
  control_length (C.lit "6") MIN_PASSWORD_LENGTH MAX_PASSWORD_LENGTH = true /\
  control_length (C.lit "32") MIN_PASSWORD_LENGTH MAX_PASSWORD_LENGTH = true /\
  control_length (C.lit "007") MIN_PASSWORD_LENGTH MAX_PASSWORD_LENGTH = true /\
  control_length (C.lit "abc") MIN_PASSWORD_LENGTH MAX_PASSWORD_LENGTH = false /\
  control_length (C.lit "33") MIN_PASSWORD_LENGTH MAX_PASSWORD_LENGTH = false.
Proof.
  split; [|split; [|split]].
  - intros text c Hin Hc. unfold control_length.
    rewrite only_digits_c_str.
    destruct (forallb C.isdigit (C.c_str text)) eqn:E; [|reflexivity].
    rewrite forallb_forall in E. rewrite (E c Hin) in Hc. discriminate.
  - intros text Hempty. unfold control_length.
    rewrite only_digits_c_str, Hempty. cbn [forallb].
    unfold C.atoi, C.strtol. rewrite Hempty. reflexivity.
  - intros text Hall Hmax. unfold control_length.
    rewrite only_digits_c_str, Hall, atoi_decimal by assumption.
    f_equal. apply Z.geb_leb.
  - repeat split; vm_compute; reflexivity.
Qed.

(** C4 as claimed fails on a text whose value does not fit an [int]: the ten
    digits of 2^32 + 7 are all digits, denote a number outside [6, 32], and
    are accepted, because the conversion keeps the low 32 bits, which are 7. *)
Lemma control_length_accepts_wrapped_value :
  forallb C.isdigit (C.lit "4294967303") = true /\
  decimal_value (C.lit "4294967303") = 4294967303 /\
  ~ (MIN_PASSWORD_LENGTH <= 4294967303 <= MAX_PASSWORD_LENGTH) /\
  control_length (C.lit "4294967303") MIN_PASSWORD_LENGTH MAX_PASSWORD_LENGTH
  = true.
Proof.
  repeat split; try (vm_compute; reflexivity).
  unfold MAX_PASSWORD_LENGTH. lia.
Qed.

(* ------------------------------------------------------------------------- *)
(** ** Receiving and sending records *)

Lemma request_image_of_image (bytes : list ascii) :
  bytes <> [] -> request_image (request_of_image bytes) = bytes.
Proof. destruct bytes; [congruence | reflexivity]. Qed.

Lemma recvfrom_datagram_nonneg (object bytes : list ascii) :
  0 <= fst (recvfrom object (Datagram bytes)).
Proof. simpl. lia. Qed.

(** C5, as the code has it.  [receive_request] fails exactly when [recvfrom]
    reports an error.  A datagram of any size is accepted, also one shorter
    than the request record: its bytes (cut to the size of the record) lie
    over the start of the record, the bytes of the record past the end of the
    datagram are what they were, and the pass of the server's loop goes on to
    [handle_password_request] with that record. *)
Theorem receive_request_accepts_any_size :
  (forall request r,
      fst (receive_request request r)
      = match r with RecvError => false | Datagram _ => true end) /\
  (forall request bytes,
      request_image (snd (receive_request request (Datagram bytes)))
      = take (length (request_image request)) bytes
          ++ drop (length bytes) (request_image request)) /\
  (forall (S : Type) (rand : S -> Z * S) st request response bytes sent,
      server_iteration rand st request response (Datagram bytes) sent
      = match handle_password_request rand st
                (snd (receive_request request (Datagram bytes))) response with
        | Fault i c => ([], Overrun i c)
        | Done st1 password1 =>
            ([SendTo password1],
             if sent =? RESPONSE_SIZE then Continue st1 else Exit EXIT_FAILURE)
        end).
Proof.
  split; [|split].
  - intros request [|bytes]; [reflexivity|].
    unfold receive_request.
    pose proof (recvfrom_datagram_nonneg (request_image request) bytes) as Hn.
    destruct (recvfrom (request_image request) (Datagram bytes)) as [n image].
    cbn [fst] in Hn. destruct (Z.ltb_spec n 0); [lia | reflexivity].
  - intros request bytes. unfold receive_request.
    pose proof (recvfrom_datagram_nonneg (request_image request) bytes) as Hn.
    destruct (recvfrom (request_image request) (Datagram bytes)) as [n image] eqn:E.
    cbn [fst] in Hn.
    assert (Himage : image = take (length (request_image request)) bytes
                              ++ drop (length bytes) (request_image request))
      by (unfold recvfrom in E; congruence).
    assert (Hne : image <> []).
    { rewrite Himage. destruct bytes as [|b bytes]; destruct request; discriminate. }
    destruct (Z.ltb_spec n 0); [lia|]. cbn [snd].
    rewrite request_image_of_image by exact Hne. exact Himage.
  - intros S rand st request response bytes sent.
    unfold server_iteration, receive_request.
    pose proof (recvfrom_datagram_nonneg (request_image request) bytes) as Hn.
    destruct (recvfrom (request_image request) (Datagram bytes)) as [n image].
    cbn [fst] in Hn. destruct (Z.ltb_spec n 0); [lia|]. cbn [negb snd].
    destruct (handle_password_request rand st (request_of_image image) response)
      as [st1 password1|i c]; [|reflexivity].
    unfold send_response, response_image. cbn [PasswordResponse.password].
    destruct (sent =? RESPONSE_SIZE); reflexivity.
Qed.

(** C5 as claimed fails: a datagram of 3 bytes, shorter than the 1025 bytes
    of the request record, is received with success, and the pass of the loop
    generates and sends a password of 8 digits. *)
Lemma short_datagram_is_served :
  Z.of_nat (length short_datagram) < REQUEST_SIZE /\
  fst (receive_request blank_request (Datagram short_datagram)) = true /\
  exists password1 st1,
    server_iteration sample_rand 1 blank_request blank_response
                     (Datagram short_datagram) RESPONSE_SIZE
    = ([SendTo password1], Continue st1) /\
    C.strlen password1 = 8%nat.
Proof.
  split; [vm_compute; reflexivity|]. split; [vm_compute; reflexivity|].
  eexists _, _. split; vm_compute; reflexivity.
Qed.

Lemma receive_response_full (old r : PasswordResponse.t) :
  response_wf old -> response_wf r ->
  receive_response old (Datagram (response_image r))
  = (true, r, [RecvFrom RESPONSE_SIZE]).
Proof.
  unfold response_wf. intros Hold Hr. unfold receive_response, response_image.
  rewrite recvfrom_full by lia. rewrite Hold.
  destruct (Z.ltb_spec RESPONSE_SIZE 0) as [H|H]; [vm_compute in H; discriminate|].
  now destruct r.
Qed.

(** C9.  The wire form of a record is its byte image of fixed size: what
    [send_request] and [send_response] hand to [sendto] is the image, 1025
    bytes for a request and 33 for a response.  Receiving that image gives
    the record back: the server's [receive_request] on the image of a request
    returns the request, and the client's [receive_response] on the image of
    a response returns the response, whatever the receiving record held. *)
Theorem wire_round_trip :
  (forall r sent, snd (send_request r sent) = [SendTo (request_image r)]) /\
  (forall resp sent, snd (send_response resp sent) = [SendTo (response_image resp)]) /\
  (forall r, request_wf r -> Z.of_nat (length (request_image r)) = REQUEST_SIZE) /\
  (forall resp,
      response_wf resp -> Z.of_nat (length (response_image resp)) = RESPONSE_SIZE) /\
  (forall old r,
      request_wf old -> request_wf r ->
      receive_request old (Datagram (request_image r)) = (true, r)) /\
  (forall old resp,
      response_wf old -> response_wf resp ->
      receive_response old (Datagram (response_image resp))
      = (true, resp, [RecvFrom RESPONSE_SIZE])).
Proof.
  split; [reflexivity|]. split; [reflexivity|].
  split; [exact request_image_length|].
  split; [intros resp H; exact H|].
  split; [exact receive_request_full | exact receive_response_full].
Qed.

(* ------------------------------------------------------------------------- *)
(** ** The client's loop *)

Lemma skip_space_In (x : ascii) (s : list ascii) :
  In x (C.skip_space s) -> In x s.
Proof.
  induction s as [|c s IH]; simpl; [tauto|].
  destruct (C.isspace c); simpl; tauto.
Qed.

(** When [sscanf] assigns at least one item, the character it stores for
    [%c] is not NUL: the input is a C string. *)
Lemma sscanf_type_assigned (input : list ascii) a t w :
  sscanf_c_s_s input = (a, t, w) ->
  a <> EOF ->
  exists c, t = Some c /\ c <> C.NUL.
Proof.
  unfold sscanf_c_s_s. intros E Ha.
  destruct (C.skip_space (C.c_str input)) as [|c s1] eqn:Es.
  - injection E as <- _ _. congruence.
  - assert (Hc : c <> C.NUL).
    { intros ->. apply (c_str_no_NUL input). apply skip_space_In.
      rewrite Es. now left. }
    exists c. split; [|exact Hc].
    destruct (C.skip_space s1); [congruence|].
    destruct (take_word _) as [word s3].
    destruct (C.skip_space s3); congruence.
Qed.

Lemma scan_user_input_type (input : list ascii) request a request1 :
  scan_user_input input request = (a, request1) ->
  a <> EOF ->
  PasswordRequest.type request1 <> C.NUL.
Proof.
  unfold scan_user_input. intros E Ha.
  destruct (sscanf_c_s_s input) as [[a' t] w] eqn:Es.
  injection E as <- <-.
  destruct (sscanf_type_assigned input a' t w Es Ha) as (c & -> & Hc).
  exact Hc.
Qed.

Lemma check_user_input_true a request r :
  check_user_input a request = (true, r) ->
  a <> EOF /\
  PasswordRequest.type r = PasswordRequest.type request /\
  control_type allowed_types (PasswordRequest.type r) = true /\
  control_length (PasswordRequest.length r)
                 MIN_PASSWORD_LENGTH MAX_PASSWORD_LENGTH = true.
Proof.
  unfold check_user_input.
  destruct (Z.eqb_spec a 1) as [->|H1].
  - cbn [PasswordRequest.type PasswordRequest.length].
    destruct (control_type allowed_types (PasswordRequest.type request)) eqn:Et;
      cbn [negb]; [|discriminate].
    destruct (control_length _ _ _) eqn:El; cbn [negb]; [|discriminate].
    intros E. injection E as <-. cbn. repeat split; try assumption.
    unfold EOF. lia.
  - destruct (Z.eqb_spec a 2) as [->|H2]; cbn [negb]; [|discriminate].
    destruct (control_type allowed_types (PasswordRequest.type request)) eqn:Et;
      cbn [negb]; [|discriminate].
    destruct (control_length _ _ _) eqn:El; cbn [negb]; [|discriminate].
    intros E. injection E as <-. repeat split; try assumption.
    unfold EOF. lia.
Qed.

(** [handle_user_input] returns true only with a request that passes both
    checks and whose type was read from the line. *)
Lemma handle_user_input_true (inputs : list (list ascii)) :
  forall request r rest,
    handle_user_input inputs request = (Some (true, r), rest) ->
    PasswordRequest.type r <> C.NUL /\
    control_type allowed_types (PasswordRequest.type r) = true /\
    control_length (PasswordRequest.length r)
                   MIN_PASSWORD_LENGTH MAX_PASSWORD_LENGTH = true.
Proof.
  induction inputs as [|contents inputs IH]; intros request r rest E.
  - discriminate.
  - cbn [handle_user_input] in E.
    destruct (scan_user_input (input_line contents) request)
      as [a request1] eqn:Es.
    destruct (Ascii.eqb (C.tolower (PasswordRequest.type request1)) "h").
    + exact (IH request1 r rest E).
    + injection E as E <-.
      destruct (check_user_input_true a request1 r E) as (Ha & Ht & Hc & Hl).
      split; [|split; assumption].
      rewrite Ht. exact (scan_user_input_type _ _ _ _ Es Ha).
Qed.

Lemma handle_user_input_shrinks (inputs : list (list ascii)) :
  forall request x rest,
    handle_user_input inputs request = (Some x, rest) ->
    (length rest < length inputs)%nat.
Proof.
  induction inputs as [|contents inputs IH]; intros request x rest E.
  - discriminate.
  - cbn [handle_user_input] in E.
    destruct (scan_user_input (input_line contents) request) as [a request1].
    destruct (Ascii.eqb (C.tolower (PasswordRequest.type request1)) "h").
    + apply IH in E. cbn [length]. lia.
    + injection E as _ <-. cbn [length]. lia.
Qed.

Lemma checked_type_sendable (r : PasswordRequest.t) :
  PasswordRequest.type r <> C.NUL ->
  control_type allowed_types (PasswordRequest.type r) = true ->
  control_length (PasswordRequest.length r)
                 MIN_PASSWORD_LENGTH MAX_PASSWORD_LENGTH = true ->
  keep_generating (PasswordRequest.type r) "q" = true ->
  sendable r /\ In (PasswordRequest.type r) (C.lit "namsu").
Proof.
  intros Hnul Ht Hl Hk. unfold sendable.
  unfold control_type in Ht. pose proof Ht as Ht'.
  apply strchr_found_spec in Ht'.
  destruct Ht' as [Hin|Hin]; [|contradiction].
  assert (Hq : PasswordRequest.type r <> "q").
  { intros E. rewrite E in Hk. discriminate. }
  assert (Hset : In (PasswordRequest.type r) (C.lit "namsu")).
  { cbn in Hin |- *. intuition congruence. }
  repeat split; try assumption.
  intros E. rewrite E in Hset. cbn in Hset. intuition discriminate.
Qed.

Lemma client_loop_sends_checked (fuel : nat) :
  forall inputs net k request response,
    Forall event_ok (fst (client_loop fuel inputs net k request response)).
Proof.
  induction fuel as [|fuel IH]; intros inputs net k request response.
  - constructor.
  - cbn [client_loop].
    destruct (handle_user_input inputs request) as [[[[|] r]|] rest] eqn:E;
      [| apply IH | constructor].
    destruct (handle_user_input_true inputs request r rest E) as (Hn & Ht & Hl).
    destruct (keep_generating (PasswordRequest.type r) "q") eqn:Hk; cbn [negb];
      [|constructor].
    destruct (checked_type_sendable r Hn Ht Hl Hk) as [Hs Hin].
    assert (Hev : event_ok (SendTo (request_image r))) by (exists r; auto).
    unfold send_request.
    destruct (sent (net k) =? REQUEST_SIZE); cbn [negb fst].
    + unfold receive_response.
      destruct (recvfrom (response_image response) (reply (net k))) as [n image].
      destruct (n <? 0); cbn [negb].
      * cbn. repeat constructor. exact Hev.
      * specialize (IH rest net (Datatypes.S k) r (response_of_image image)).
        destruct (client_loop fuel rest net (Datatypes.S k) r (response_of_image image))
          as [events e].
        cbn. constructor; [exact Hev|]. constructor; [exact I | exact IH].
    + repeat constructor. exact Hev.
Qed.

(** The fuel of [client_main] is enough: the run ends by returning or by
    waiting for a line, not by the bound of the model. *)
Lemma client_loop_fuel (fuel : nat) :
  forall inputs net k request response,
    (length inputs < fuel)%nat ->
    snd (client_loop fuel inputs net k request response) <> OutOfFuel.
Proof.
  induction fuel as [|fuel IH]; intros inputs net k request response Hf; [lia|].
  cbn [client_loop].
  destruct (handle_user_input inputs request) as [[[[|] r]|] rest] eqn:E.
  - apply handle_user_input_shrinks in E.
    destruct (negb (keep_generating (PasswordRequest.type r) "q")); [discriminate|].
    unfold send_request.
    destruct (negb (sent (net k) =? REQUEST_SIZE)); [discriminate|].
    destruct (receive_response response (reply (net k))) as [[received response1] ev2].
    destruct (negb received); [discriminate|].
    specialize (IH rest net (Datatypes.S k) r response1 ltac:(lia)).
    destruct (client_loop fuel rest net (Datatypes.S k) r response1) as [events e].
    exact IH.
  - apply handle_user_input_shrinks in E. apply IH. lia.
  - discriminate.
Qed.

(** C8.  Every datagram the client sends is the image of a request that
    passed the class check and the digit-and-range check of
    [handle_user_input], and whose type is one of n, a, m, s, u: neither q nor
    Q is ever sent.  In a single pass of the loop (fuel 1) there is no network
    event at all when [handle_user_input] returns false or when the type is
    the stop letter; and [handle_user_input] returns true only if both checks
    hold of the request it leaves.  The run never stops for lack of fuel. *)
Theorem client_sends_only_valid_requests :
  (forall inputs net request response,
      Forall event_ok (fst (client_main inputs net request response)) /\
      snd (client_main inputs net request response) <> OutOfFuel) /\
  (forall inputs net k request response ok r rest,
      handle_user_input inputs request = (Some (ok, r), rest) ->
      ok = false \/ C.tolower (PasswordRequest.type r) = "q" ->
      fst (client_loop 1 inputs net k request response) = []) /\
  (forall inputs request r rest,
      handle_user_input inputs request = (Some (true, r), rest) ->
      control_type allowed_types (PasswordRequest.type r) = true /\
      control_length (PasswordRequest.length r)
                     MIN_PASSWORD_LENGTH MAX_PASSWORD_LENGTH = true).
Proof.
  split; [|split].
  - intros inputs net request response. split.
    + apply client_loop_sends_checked.
    + apply client_loop_fuel. lia.
  - intros inputs net k request response ok r rest E Hor.
    cbn [client_loop]. rewrite E.
    destruct ok.
    + destruct Hor as [Hor|Hor]; [discriminate|].
      unfold keep_generating. rewrite Hor. reflexivity.
    + reflexivity.
  - intros inputs request r rest E.
    now destruct (handle_user_input_true inputs request r rest E) as (_ & Ht & Hl).
Qed.

(* ------------------------------------------------------------------------- *)
(** ** The statements at concrete inputs *)

Lemma sample_rand_nonneg (next : Z) : 0 <= fst (sample_rand next).
Proof.
  unfold sample_rand. cbn [fst].
  apply Z.mod_pos_bound. lia.
Qed.

(** C1 at the sample generator: seed 1, type UNAMBIGUOUS, length 10. *)
Lemma generate_password_charset_witness :
  (Z.of_nat (length (PasswordResponse.password blank_response))
   = MAX_PASSWORD_LENGTH + 1 /\
   MIN_PASSWORD_LENGTH <= 10 <= MAX_PASSWORD_LENGTH) /\
  exists st1 password1,
    generate_password sample_rand 1 (PasswordResponse.password blank_response)
                      UNAMBIGUOUS 10 = Done st1 password1 /\
    length password1 = length (PasswordResponse.password blank_response) /\
    Z.of_nat (C.strlen password1) = 10 /\
    password1 !! Z.to_nat 10 = Some C.NUL /\
    Forall (fun x => In x (charsetFor UNAMBIGUOUS)) (C.c_str password1) /\
    (UNAMBIGUOUS = UNAMBIGUOUS ->
     Forall (fun x => ~ In x confusable) (C.c_str password1)).
Proof.
  assert (H1 : Z.of_nat (length (PasswordResponse.password blank_response))
               = MAX_PASSWORD_LENGTH + 1) by reflexivity.
  assert (H2 : MIN_PASSWORD_LENGTH <= 10 <= MAX_PASSWORD_LENGTH)
    by (unfold MIN_PASSWORD_LENGTH, MAX_PASSWORD_LENGTH; lia).
  split; [split; assumption|].
  exact (generate_password_charset Z sample_rand sample_rand_nonneg 1
           (PasswordResponse.password blank_response) UNAMBIGUOUS 10 H1 H2).
Defined.

(** C10 at the sample generator: seed 1, type SECURE, length 6. *)
Lemma generate_password_frame_witness :
  (Z.of_nat (length (PasswordResponse.password blank_response))
   = MAX_PASSWORD_LENGTH + 1 /\
   MIN_PASSWORD_LENGTH <= 6 <= MAX_PASSWORD_LENGTH) /\
  exists st1 password1,
    generate_password sample_rand 1 (PasswordResponse.password blank_response)
                      SECURE 6 = Done st1 password1 /\
    length password1 = length (PasswordResponse.password blank_response) /\
    password1 !! Z.to_nat 6 = Some C.NUL /\
    forall i : nat,
      (Z.to_nat 6 < i)%nat ->
      password1 !! i = PasswordResponse.password blank_response !! i.
Proof.
  assert (H1 : Z.of_nat (length (PasswordResponse.password blank_response))
               = MAX_PASSWORD_LENGTH + 1) by reflexivity.
  assert (H2 : MIN_PASSWORD_LENGTH <= 6 <= MAX_PASSWORD_LENGTH)
    by (unfold MIN_PASSWORD_LENGTH, MAX_PASSWORD_LENGTH; lia).
  split; [split; assumption|].
  exact (generate_password_frame Z sample_rand 1
           (PasswordResponse.password blank_response) SECURE 6 H1 H2).
Defined.

(** C2 at the sample generator, with blank locals: the pass of the server's
    loop on the request for 40 characters stops at index 33. *)
Lemma server_overruns_password_buffer_witness :
  exists datagram : list ascii,
    Z.of_nat (length datagram) = REQUEST_SIZE /\
    MAX_PASSWORD_LENGTH
      < C.atoi (PasswordRequest.length (request_of_image datagram)) /\
    exists c,
      server_iteration sample_rand 1 blank_request blank_response
                       (Datagram datagram) RESPONSE_SIZE
      = ([], Overrun (MAX_PASSWORD_LENGTH + 1) c) /\
      In c digits.
Proof.
  destruct (server_overruns_password_buffer Z sample_rand sample_rand_nonneg)
    as (datagram & Hsize & Hlen & Hrun).
  exists datagram. split; [exact Hsize|]. split; [exact Hlen|].
  apply Hrun; reflexivity.
Defined.

(** C7 at the sample generator: seed 1, length 8. *)
Lemma generate_mixed_two_stage_witness :
  0 <= 8 < Z.of_nat (length (PasswordResponse.password blank_response)) /\
  exists st1 password1,
    generate_mixed sample_rand 1 (PasswordResponse.password blank_response) 8
    = Done st1 password1 /\
    take (Z.to_nat 8) password1
    = pairs_mixed (rand_seq sample_rand (2 * Z.to_nat 8) 1).
Proof.
  assert (H : 0 <= 8 < Z.of_nat (length (PasswordResponse.password blank_response)))
    by (split; [lia | reflexivity]).
  split; [exact H|].
  exact (proj1 (generate_mixed_two_stage Z sample_rand) 1
           (PasswordResponse.password blank_response) 8 H).
Defined.

(** C4 at the text "007": all digits, value 7. *)
Lemma control_length_range_witness :
  (forallb C.isdigit (C.c_str (C.lit "007")) = true /\
   decimal_value (C.c_str (C.lit "007")) <= C.INT_MAX) /\
  control_length (C.lit "007") MIN_PASSWORD_LENGTH MAX_PASSWORD_LENGTH
  = (MIN_PASSWORD_LENGTH <=? decimal_value (C.c_str (C.lit "007")))
    && (decimal_value (C.c_str (C.lit "007")) <=? MAX_PASSWORD_LENGTH).
Proof.
  assert (H1 : forallb C.isdigit (C.c_str (C.lit "007")) = true) by reflexivity.
  assert (H2 : decimal_value (C.c_str (C.lit "007")) <= C.INT_MAX)
    by (vm_compute; discriminate).
  split; [split; assumption|].
  exact (proj1 (proj2 (proj2 control_length_range)) (C.lit "007") H1 H2).
Defined.

(** C9 at the request for 40 characters and a blank response. *)
Lemma wire_round_trip_witness :
  (request_wf blank_request /\ request_wf overlong_request /\
   response_wf blank_response) /\
  receive_request blank_request (Datagram (request_image overlong_request))
  = (true, overlong_request) /\
  receive_response blank_response (Datagram (response_image blank_response))
  = (true, blank_response, [RecvFrom RESPONSE_SIZE]).
Proof.
  assert (H1 : request_wf blank_request) by reflexivity.
  assert (H2 : request_wf overlong_request) by reflexivity.
  assert (H3 : response_wf blank_response) by reflexivity.
  split; [repeat split; assumption|].
  split.
  - exact (proj1 (proj2 (proj2 (proj2 (proj2 wire_round_trip))))
             blank_request overlong_request H1 H2).
  - exact (proj2 (proj2 (proj2 (proj2 (proj2 wire_round_trip))))
             blank_response blank_response H3 H3).
Defined.

(** C8 on the line "q": [handle_user_input] returns true with type q and the
    default length, and the pass sends nothing. *)
Lemma client_sends_only_valid_requests_witness :
  handle_user_input [C.lit "q"] blank_request
  = (Some (true,
           PasswordRequest.mk "q"
             (strcpy (<[Z.to_nat (BUFFER_SIZE - 1) := C.NUL]>
                        (PasswordRequest.length blank_request))
                     (C.lit "8"))),
     []) /\
  fst (client_loop 1 [C.lit "q"] (fun _ => Build_exchange REQUEST_SIZE RecvError)
                   0 blank_request blank_response) = [].
Proof.
  assert (H : handle_user_input [C.lit "q"] blank_request
              = (Some (true,
                       PasswordRequest.mk "q"
                         (strcpy (<[Z.to_nat (BUFFER_SIZE - 1) := C.NUL]>
                                    (PasswordRequest.length blank_request))
                                 (C.lit "8"))),
                 [])) by (vm_compute; reflexivity).
  split; [exact H|].
  exact (proj1 (proj2 client_sends_only_valid_requests)
           [C.lit "q"] (fun _ => Build_exchange REQUEST_SIZE RecvError)
           0%nat blank_request blank_response true _ [] H (or_intror eq_refl)).
Defined.

(* ------------------------------------------------------------------------- *)
(** ** Further properties of the client's checks *)

(** X1.  With the stop letter [q] that [main] passes, [keep_generating]
    answers false, which stops the client, for exactly the two characters q
    and Q. *)
Theorem keep_generating_stops_on_q (type : ascii) :
  keep_generating type "q" = false <-> type = "q" \/ type = "Q".
Proof.
  destruct type as [[] [] [] [] [] [] [] []]; vm_compute;
    split; intros H; try discriminate; auto;
    destruct H as [H|H]; discriminate.
Qed.

(** X2.  For every set of allowed types, [control_type] is true exactly for
    the characters that stand in the set before its terminator and for NUL
    itself, which [strchr] finds at the terminator; what follows a NUL inside
    the array is not looked at. *)
Theorem control_type_any_set (allowed_type : list ascii) (type : ascii) :
  control_type allowed_type type = true
  <-> In type (C.c_str allowed_type) \/ type = C.NUL.
Proof. unfold control_type. apply strchr_found_spec. Qed.

Lemma strtol_digits (text : list ascii) :
  forallb C.isdigit (C.c_str text) = true ->
  C.strtol text = C.clamp_long (C.digits_value 0 (C.c_str text)).
Proof.
  intros Hall. unfold C.strtol.
  destruct (C.c_str text) as [|c s] eqn:E; [reflexivity|].
  cbn [forallb] in Hall. apply andb_prop in Hall. destruct Hall as [Hc _].
  pose proof (isdigit_code c Hc) as Hcode.
  assert (Hsp : C.isspace c = false) by (unfold C.isspace; lia).
  cbn [C.skip_space]. rewrite Hsp.
  destruct (Ascii.eqb_spec c "-") as [->|_];
    [change (C.code "-") with 45 in Hcode; lia|].
  destruct (Ascii.eqb_spec c "+") as [->|_];
    [change (C.code "+") with 43 in Hcode; lia|].
  reflexivity.
Qed.

(** X3.  A leading zero does not change the answer of [control_length], for
    any text and any bounds: zeros in front of the length are ignored. *)
Theorem control_length_leading_zero (text : list ascii) (min_length max_length : Z) :
  control_length ("0" :: text) min_length max_length
  = control_length text min_length max_length.
Proof.
  unfold control_length.
  change (only_digits ("0" :: text)) with (only_digits text).
  destruct (only_digits text) eqn:E; [|reflexivity].
  rewrite only_digits_c_str in E.
  assert (E0 : forallb C.isdigit (C.c_str ("0" :: text)) = true) by exact E.
  unfold C.atoi. rewrite (strtol_digits _ E0), (strtol_digits _ E).
  reflexivity.
Qed.

(* ------------------------------------------------------------------------- *)
(** ** Further properties of the generators *)

Lemma generate_with_negative {S : Type} (p : S -> ascii * S) st password len :
  len < 0 -> generate_with p st password len = Fault len C.NUL.
Proof.
  intros Hlen. unfold generate_with.
  replace (Z.to_nat len) with 0%nat by lia. cbn [fill].
  now rewrite store_outside by lia.
Qed.

Lemma generate_with_exact {S : Type} (p : S -> ascii * S) st password len :
  len = Z.of_nat (length password) ->
  generate_with p st password len = Fault len C.NUL.
Proof.
  intros ->. unfold generate_with. rewrite Nat2Z.id.
  pose proof (fill_writes p (length password) [] password [] st eq_refl) as Hfill.
  cbn [app length] in Hfill. change (Z.of_nat 0) with 0 in Hfill.
  rewrite !app_nil_r in Hfill. rewrite Hfill.
  rewrite store_outside; [reflexivity|].
  rewrite draws_length. lia.
Qed.


Lemma draws_state {S : Type} (rand : S -> Z * S) (type : PasswordType) (n : nat) :
  forall st,
    snd (draws (char_for rand type) n st)
    = rand_state rand (calls_per_char type * n) st.
Proof.
  induction n as [|n IH]; intros st.
  - rewrite Nat.mul_0_r. reflexivity.
  - replace (calls_per_char type * Datatypes.S n)%nat
      with (calls_per_char type + calls_per_char type * n)%nat by lia.
    cbn [draws].
    destruct (char_for rand type st) as [c st1] eqn:Ec.
    specialize (IH st1).
    destruct (draws (char_for rand type) n st1) as [cs st2]. cbn [snd] in *.
    rewrite IH. clear IH.
    destruct type; cbn [char_for calls_per_char Nat.add rand_state] in *.
    + unfold numeric_char in Ec. destruct (rand st) as [r s1].
      injection Ec as _ <-. reflexivity.
    + unfold alpha_char in Ec. destruct (rand st) as [r s1].
      injection Ec as _ <-. reflexivity.
    + unfold mixed_char in Ec.
      destruct (rand st) as [r1 s1]. cbn [snd].
      destruct (rand s1) as [r2 s2]. injection Ec as _ <-. reflexivity.
    + unfold secure_char in Ec. destruct (rand st) as [r s1].
      injection Ec as _ <-. reflexivity.
    + unfold unambiguous_char in Ec. destruct (rand st) as [r s1].
      injection Ec as _ <-. reflexivity.
Qed.

(** X5.  A call of [generate_password] that returns has called [rand()] once
    for every character, twice for type MIXED, and not more: the generator is
    left in the state after [length] (or [2 * length]) calls. *)
Theorem generate_password_calls_of_rand {S : Type} (rand : S -> Z * S)
        st password type len st1 password1 :
  generate_password rand st password type len = Done st1 password1 ->
  st1 = rand_state rand (calls_per_char type * Z.to_nat len) st.
Proof.
  intros E.
  destruct (Z.lt_ge_cases len 0) as [Hneg|Hpos].
  - rewrite generate_password_char_for, generate_with_negative in E by exact Hneg.
    discriminate.
  - destruct (Z.lt_trichotomy len (Z.of_nat (length password))) as [H|[H|H]].
    + rewrite generate_password_fits in E by lia.
      injection E as <- _. apply draws_state.
    + rewrite generate_password_char_for, generate_with_exact in E by exact H.
      discriminate.
    + rewrite generate_password_char_for, generate_with_overruns in E by exact H.
      discriminate.
Qed.

Lemma table_index (table : list ascii) (c : ascii) :
  In c table ->
  exists k : nat, (k < length table)%nat /\ nth k table C.NUL = c.
Proof. intros Hin. destruct (In_nth table c C.NUL Hin) as (k & Hk & E). eauto. Qed.

Lemma charset_at_index (table : list ascii) (k : nat) :
  (k < length table)%nat ->
  charset_at table (Z.of_nat k) = nth k table C.NUL.
Proof.
  intros Hk. unfold charset_at.
  rewrite Z.rem_small by lia. now rewrite Nat2Z.id.
Qed.

(** The values of [rand()] that make the generator of a type produce a given
    character of its set. *)
Lemma char_for_reaches (type : PasswordType) (c : ascii) :
  In c (charsetFor type) ->
  exists rs : list Z,
    Forall (fun r => 0 <= r) rs /\
    forall rest, char_for scripted_rand type (rs ++ rest) = (c, rest).
Proof.
  destruct type; cbn [char_for]; intros Hin.
  - destruct (table_index digits c Hin) as (k & Hk & <-).
    change (length digits) with 10%nat in Hk.
    exists [Z.of_nat k]. split; [repeat constructor; lia|]. intros rest.
    unfold numeric_char, numeric_of. cbn [app scripted_rand].
    rewrite Z.rem_small by lia. now rewrite digit_of_index.
  - destruct (table_index lowercase c Hin) as (k & Hk & <-).
    change (length lowercase) with 26%nat in Hk.
    exists [Z.of_nat k]. split; [repeat constructor; lia|]. intros rest.
    unfold alpha_char, alpha_of. cbn [app scripted_rand].
    rewrite Z.rem_small by lia. now rewrite lowercase_of_index.
  - cbn [charsetFor] in Hin. apply in_app_or in Hin. destruct Hin as [Hin|Hin].
    + destruct (table_index digits c Hin) as (k & Hk & <-).
      change (length digits) with 10%nat in Hk.
      exists [0; Z.of_nat k]. split; [repeat constructor; lia|]. intros rest.
      unfold mixed_char, mixed_of. cbn [app scripted_rand].
      change (Z.rem 0 2 =? 0) with true. cbn iota.
      rewrite Z.rem_small by lia. now rewrite digit_of_index.
    + destruct (table_index lowercase c Hin) as (k & Hk & <-).
      change (length lowercase) with 26%nat in Hk.
      exists [1; Z.of_nat k]. split; [repeat constructor; lia|]. intros rest.
      unfold mixed_char, mixed_of. cbn [app scripted_rand].
      change (Z.rem 1 2 =? 0) with false. cbn iota.
      rewrite Z.rem_small by lia. now rewrite lowercase_of_index.
  - rewrite <- secure_charset_spec in Hin.
    destruct (table_index secure_charset c Hin) as (k & Hk & <-).
    exists [Z.of_nat k]. split; [repeat constructor; lia|]. intros rest.
    unfold secure_char, secure_of. cbn [app scripted_rand].
    now rewrite charset_at_index.
  - rewrite <- unambiguous_charset_spec in Hin.
    destruct (table_index unambiguous_charset c Hin) as (k & Hk & <-).
    exists [Z.of_nat k]. split; [repeat constructor; lia|]. intros rest.
    unfold unambiguous_char, unambiguous_of. cbn [app scripted_rand].
    now rewrite charset_at_index.
Qed.

Lemma draws_reach (type : PasswordType) (cs : list ascii) :
  Forall (fun c => In c (charsetFor type)) cs ->
  exists rs : list Z,
    Forall (fun r => 0 <= r) rs /\
    draws (char_for scripted_rand type) (length cs) rs = (cs, []).
Proof.
  induction cs as [|c cs IH]; intros Hall.
  - exists []. split; [constructor | reflexivity].
  - inversion Hall as [|? ? Hc Hcs]; subst.
    destruct (IH Hcs) as (rs & Hrs & Hd).
    destruct (char_for_reaches type c Hc) as (rc & Hrc & Hchar).
    exists (rc ++ rs). split.
    + apply List.Forall_app. split; assumption.
    + cbn [length draws]. rewrite Hchar, Hd. reflexivity.
Qed.

(** X6.  Every string over the character set of a type can be generated: for
    a string [cs] that fits the array there are values of [rand()], all
    non-negative, with which [generate_password] writes exactly [cs] and its
    terminator and leaves the rest of the array.  With C1 this makes the set
    of the type exactly the characters that can occur. *)
Theorem generate_password_reaches (type : PasswordType) (cs password : list ascii) :
  Forall (fun c => In c (charsetFor type)) cs ->
  (length cs < length password)%nat ->
  exists rs : list Z,
    Forall (fun r => 0 <= r) rs /\
    generate_password scripted_rand rs password type (Z.of_nat (length cs))
    = Done [] (cs ++ C.NUL :: drop (Datatypes.S (length cs)) password).
Proof.
  intros Hall Hfit.
  destruct (draws_reach type cs Hall) as (rs & Hrs & Hd).
  exists rs. split; [exact Hrs|].
  rewrite generate_password_fits by lia.
  rewrite Nat2Z.id, Hd. reflexivity.
Qed.

(* ------------------------------------------------------------------------- *)
(** ** The size of the records *)

Lemma recvfrom_length (object : list ascii) (r : recv_result) :
  length (snd (recvfrom object r)) = length object.
Proof.
  destruct r as [|bytes]; [reflexivity|]. cbn [recvfrom snd].
  rewrite length_app, length_take, length_drop. lia.
Qed.

Lemma request_of_image_wf (image : list ascii) :
  Z.of_nat (length image) = REQUEST_SIZE -> request_wf (request_of_image image).
Proof.
  unfold REQUEST_SIZE, request_wf, BUFFER_SIZE.
  destruct image as [|t l]; cbn [request_of_image PasswordRequest.length length]; lia.
Qed.

(** X7.  Receiving never changes the size of a record, whatever the size of
    the datagram: after [receive_request] the length array still has
    [BUFFER_SIZE] bytes and after [receive_response] the password array still
    has 33; a longer datagram is cut at the size of the record. *)
Theorem receive_keeps_record_size :
  (forall request r,
      request_wf request -> request_wf (snd (receive_request request r))) /\
  (forall response r,
      response_wf response ->
      response_wf (snd (fst (receive_response response r)))) /\
  (forall request bytes,
      request_wf request ->
      REQUEST_SIZE <= Z.of_nat (length bytes) ->
      request_image (snd (receive_request request (Datagram bytes)))
      = take (Z.to_nat REQUEST_SIZE) bytes).
Proof.
  split; [|split].
  - intros request r Hwf. unfold receive_request.
    pose proof (recvfrom_length (request_image request) r) as Hlen.
    destruct (recvfrom (request_image request) r) as [n image]. cbn [snd] in Hlen.
    pose proof (request_image_length request Hwf) as Hsize.
    destruct (n <? 0); cbn [snd]; apply request_of_image_wf; lia.
  - intros response r Hwf. unfold receive_response.
    pose proof (recvfrom_length (response_image response) r) as Hlen.
    destruct (recvfrom (response_image response) r) as [n image]. cbn [snd] in Hlen.
    unfold response_wf, response_image in *.
    destruct (n <? 0); cbn; lia.
  - intros request bytes Hwf Hbig.
    pose proof (request_image_length request Hwf) as Hsize.
    unfold receive_request. cbn [recvfrom].
    destruct (Z.ltb_spec
                (Z.of_nat (Nat.min (length bytes) (length (request_image request)))) 0);
      [lia|]. cbn [snd].
    rewrite drop_ge by lia. rewrite app_nil_r.
    replace (length (request_image request)) with (Z.to_nat REQUEST_SIZE) by lia.
    apply request_image_of_image.
    destruct bytes; [cbn in Hbig; unfold REQUEST_SIZE, BUFFER_SIZE in Hbig; lia|].
    discriminate.
Qed.

(* ------------------------------------------------------------------------- *)
(** ** The request that [handle_user_input] builds *)

Lemma c_str_length (a : list ascii) : (length (C.c_str a) <= length a)%nat.
Proof.
  induction a as [|c a IH]; cbn [C.c_str length]; [lia|].
  destruct (Ascii.eqb c C.NUL); cbn [length]; lia.
Qed.

Lemma skip_space_length (s : list ascii) :
  (length (C.skip_space s) <= length s)%nat.
Proof.
  induction s as [|c s IH]; cbn [C.skip_space length]; [lia|].
  destruct (C.isspace c); cbn [length]; lia.
Qed.

Lemma take_word_length (s : list ascii) :
  (length (fst (take_word s)) <= length s)%nat.
Proof.
  induction s as [|c s IH]; cbn [take_word fst length]; [lia|].
  destruct (C.isspace c); cbn [fst length]; [lia|].
  destruct (take_word s) as [w rest]. cbn [fst length] in *. lia.
Qed.

Lemma input_line_length (contents : list ascii) :
  Z.of_nat (length (input_line contents)) <= BUFFER_SIZE - 1.
Proof.
  unfold input_line. rewrite length_take. unfold BUFFER_SIZE. lia.
Qed.

(** The word [sscanf] stores for [%s] is shorter than the input: the
    character for [%c] stands before it. *)
Lemma sscanf_word_length (input : list ascii) a t w :
  sscanf_c_s_s input = (a, t, Some w) ->
  (length w < length input)%nat.
Proof.
  unfold sscanf_c_s_s. intros E.
  pose proof (c_str_length input) as H0.
  pose proof (skip_space_length (C.c_str input)) as H1.
  destruct (C.skip_space (C.c_str input)) as [|c s1]; [discriminate|].
  cbn [length] in H1.
  pose proof (skip_space_length s1) as H2.
  destruct (C.skip_space s1) as [|c2 s2] eqn:E2; [discriminate|].
  pose proof (take_word_length (c2 :: s2)) as H3.
  destruct (take_word (c2 :: s2)) as [word s3]. cbn [fst] in H3.
  destruct (C.skip_space s3); injection E as _ _ <-; lia.
Qed.

Lemma strcpy_length (array word : list ascii) :
  (length word < length array)%nat ->
  length (strcpy array word) = length array.
Proof.
  intros H. unfold strcpy.
  rewrite length_app. cbn [length]. rewrite length_drop. lia.
Qed.

Lemma strcpy_lookup_after (array word : list ascii) (i : nat) :
  (length word < i)%nat -> strcpy array word !! i = array !! i.
Proof.
  intros H. unfold strcpy. rewrite lookup_app_r by lia.
  destruct (i - length word)%nat as [|j] eqn:Ej; [lia|].
  change ((C.NUL :: drop (Datatypes.S (length word)) array) !! Datatypes.S j)
    with (drop (Datatypes.S (length word)) array !! j).
  rewrite lookup_drop. f_equal. lia.
Qed.

Lemma scan_user_input_terminated contents request a request1 :
  request_wf request ->
  scan_user_input (input_line contents) request = (a, request1) ->
  length_terminated request1.
Proof.
  unfold request_wf, length_terminated, scan_user_input. intros Hwf E.
  pose proof (input_line_length contents) as Hin.
  destruct (sscanf_c_s_s (input_line contents)) as [[a' t] w] eqn:Es.
  injection E as _ <-. cbn [PasswordRequest.length]. unfold request_wf.
  cbn [PasswordRequest.length].
  assert (Hlen : Z.of_nat
                   (length match w with
                           | Some w0 => strcpy (PasswordRequest.length request) w0
                           | None => PasswordRequest.length request
                           end) = BUFFER_SIZE).
  { destruct w as [w|]; [|exact Hwf].
    apply sscanf_word_length in Es.
    rewrite strcpy_length; [exact Hwf|]. unfold BUFFER_SIZE in *. lia. }
  rewrite length_insert. split; [exact Hlen|].
  apply list_lookup_insert_eq. unfold BUFFER_SIZE in *. lia.
Qed.

Lemma check_user_input_terminated a request ok r :
  length_terminated request ->
  check_user_input a request = (ok, r) ->
  length_terminated r.
Proof.
  unfold length_terminated, request_wf. intros [Hwf Hnul] E.
  unfold check_user_input in E.
  assert (Hdefault :
            length_terminated
              (PasswordRequest.mk (PasswordRequest.type request)
                 (strcpy (PasswordRequest.length request) (C.lit "8")))).
  { unfold length_terminated, request_wf. cbn [PasswordRequest.length]. split.
    - rewrite strcpy_length; [exact Hwf|].
      unfold BUFFER_SIZE in Hwf. cbn [C.lit list_ascii_of_string length]. lia.
    - rewrite strcpy_lookup_after; [exact Hnul|].
      unfold BUFFER_SIZE. cbn [C.lit list_ascii_of_string length]. lia. }
  destruct (a =? 1).
  - cbn [PasswordRequest.type PasswordRequest.length] in E.
    destruct (negb (control_type _ _));
      [injection E as _ <-; exact Hdefault|].
    destruct (negb (control_length _ _ _)); injection E as _ <-; exact Hdefault.
  - destruct (negb (a =? 2)); [injection E as _ <-; auto|].
    destruct (negb (control_type _ _)); [injection E as _ <-; auto|].
    destruct (negb (control_length _ _ _)); injection E as _ <-; auto.
Qed.

Lemma handle_user_input_terminated (inputs : list (list ascii)) :
  forall request ok r rest,
    request_wf request ->
    handle_user_input inputs request = (Some (ok, r), rest) ->
    length_terminated r.
Proof.
  induction inputs as [|contents inputs IH]; intros request ok r rest Hwf E.
  - discriminate.
  - cbn [handle_user_input] in E.
    destruct (scan_user_input (input_line contents) request)
      as [a request1] eqn:Es.
    pose proof (scan_user_input_terminated _ _ _ _ Hwf Es) as Hterm.
    destruct (Ascii.eqb (C.tolower (PasswordRequest.type request1)) "h").
    + exact (IH request1 ok r rest (proj1 Hterm) E).
    + injection E as E <-.
      exact (check_user_input_terminated a request1 ok r Hterm E).
Qed.

(** X8.  [handle_user_input] never writes past the length array although
    [%s] has no width: whatever the lines read, from a request whose length
    array has [BUFFER_SIZE] bytes it returns a request whose length array has
    [BUFFER_SIZE] bytes and a terminator in the last one, whether it answers
    true or false. *)
Theorem handle_user_input_keeps_length_array
        (inputs : list (list ascii)) request ok r rest :
  request_wf request ->
  handle_user_input inputs request = (Some (ok, r), rest) ->
  request_wf r /\
  PasswordRequest.length r !! Z.to_nat (BUFFER_SIZE - 1) = Some C.NUL.
Proof. apply handle_user_input_terminated. Qed.

(* ------------------------------------------------------------------------- *)
(** ** The lines [handle_user_input] reads *)

Lemma c_str_without_NUL (l : list ascii) : ~ In C.NUL l -> C.c_str l = l.
Proof.
  induction l as [|c l IH]; intros Hnot; cbn [C.c_str]; [reflexivity|].
  destruct (Ascii.eqb_spec c C.NUL) as [->|_].
  - exfalso. apply Hnot. now left.
  - f_equal. apply IH. intros Hin. apply Hnot. now right.
Qed.

Lemma is_word_cons (c : ascii) (w : list ascii) :
  is_word (c :: w) = true ->
  C.isspace c = false /\ c <> C.NUL /\ is_word w = true.
Proof.
  unfold is_word. cbn [forallb]. intros H.
  apply andb_prop in H. destruct H as [Hc Hw].
  apply andb_prop in Hc. destruct Hc as [Hs Hn].
  apply negb_true_iff in Hs. apply negb_true_iff in Hn.
  repeat split; try assumption.
  intros ->. rewrite Ascii.eqb_refl in Hn. discriminate.
Qed.

Lemma is_word_no_NUL (w : list ascii) : is_word w = true -> ~ In C.NUL w.
Proof.
  induction w as [|c w IH]; intros Hw; [intros []|].
  apply is_word_cons in Hw. destruct Hw as (_ & Hc & Hw).
  intros [E|Hin]; [congruence | exact (IH Hw Hin)].
Qed.

Lemma take_word_word (w : list ascii) (sp : ascii) (tail : list ascii) :
  is_word w = true -> C.isspace sp = true ->
  take_word (w ++ sp :: tail) = (w, sp :: tail).
Proof.
  intros Hw Hsp. induction w as [|c w IH]; cbn [app take_word].
  - now rewrite Hsp.
  - apply is_word_cons in Hw. destruct Hw as (Hc & _ & Hw).
    rewrite Hc, (IH Hw). reflexivity.
Qed.

Lemma skip_space_word (w tail : list ascii) :
  is_word w = true -> w <> [] -> C.skip_space (w ++ tail) = w ++ tail.
Proof.
  intros Hw Hne. destruct w as [|c w]; [congruence|].
  apply is_word_cons in Hw. destruct Hw as (Hc & _ & _).
  cbn [app C.skip_space]. now rewrite Hc.
Qed.

(** [sscanf] on a C string that holds a type, a blank, a word, a white-space
    character and a tail: two items when only white space follows, three
    otherwise. *)
Lemma sscanf_two_words (t sp : ascii) (w tail : list ascii) :
  C.isspace t = false -> t <> C.NUL ->
  is_word w = true -> w <> [] ->
  C.isspace sp = true ->
  ~ In C.NUL (sp :: tail) ->
  sscanf_c_s_s (t :: " " :: w ++ sp :: tail)
  = (match C.skip_space tail with [] => 2 | _ => 3 end, Some t, Some w).
Proof.
  intros Ht Hnul Hw Hne Hsp Htail. unfold sscanf_c_s_s.
  rewrite c_str_without_NUL.
  2:{ intros [E|[E|Hin]]; [congruence | discriminate |].
      apply in_app_or in Hin. destruct Hin as [Hin|Hin];
        [exact (is_word_no_NUL w Hw Hin) | exact (Htail Hin)]. }
  cbn [C.skip_space]. rewrite Ht.
  change (C.skip_space (" " :: w ++ sp :: tail))
    with (C.skip_space (w ++ sp :: tail)).
  rewrite (skip_space_word w (sp :: tail) Hw Hne).
  destruct (w ++ sp :: tail) as [|c2 s2] eqn:E2.
  { destruct w; discriminate. }
  rewrite <- E2, (take_word_word w sp tail Hw Hsp).
  cbn [C.skip_space]. rewrite Hsp.
  destruct (C.skip_space tail); reflexivity.
Qed.

Lemma sscanf_type_line (t : ascii) :
  C.isspace t = false -> t <> C.NUL ->
  sscanf_c_s_s (type_line t) = (1, Some t, None).
Proof.
  intros Ht Hnul. unfold sscanf_c_s_s, type_line.
  rewrite c_str_without_NUL
    by (intros [E|[E|[]]]; [congruence | discriminate]).
  cbn [C.skip_space]. rewrite Ht. reflexivity.
Qed.

Lemma input_line_short (line : list ascii) :
  ~ In C.NUL line ->
  Z.of_nat (length line) <= BUFFER_SIZE - 1 ->
  input_line line = line.
Proof.
  intros Hnul Hlen. unfold input_line.
  rewrite c_str_without_NUL by exact Hnul.
  apply take_ge. lia.
Qed.

Lemma c_str_stored_word (array w : list ascii) :
  ~ In C.NUL w ->
  (length w < Z.to_nat (BUFFER_SIZE - 1))%nat ->
  C.c_str (<[Z.to_nat (BUFFER_SIZE - 1) := C.NUL]> (strcpy array w)) = w.
Proof.
  intros Hnul Hlen. unfold strcpy.
  rewrite insert_app_r_alt by lia.
  destruct (Z.to_nat (BUFFER_SIZE - 1) - length w)%nat as [|j] eqn:Ej; [lia|].
  cbn [insert list_insert].
  now apply c_str_app_NUL.
Qed.

Lemma control_length_c_str (a b : list ascii) (min_length max_length : Z) :
  C.c_str a = C.c_str b ->
  control_length a min_length max_length = control_length b min_length max_length.
Proof.
  intros E. unfold control_length, C.atoi, C.strtol.
  now rewrite !only_digits_c_str, E.
Qed.

Lemma check_user_input_two (r : PasswordRequest.t) :
  check_user_input 2 r
  = (control_type allowed_types (PasswordRequest.type r)
     && control_length (PasswordRequest.length r)
                       MIN_PASSWORD_LENGTH MAX_PASSWORD_LENGTH, r).
Proof.
  unfold check_user_input. cbn [Z.eqb Pos.eqb negb].
  destruct (control_type allowed_types (PasswordRequest.type r)); cbn [negb andb];
    [|reflexivity].
  destruct (control_length _ _ _); reflexivity.
Qed.

(** What [handle_user_input] does with a line that holds a type and a word
    (and perhaps more), the type not being the help letter. *)
Lemma handle_user_input_two_words t sp w tail rest request :
  C.isspace t = false -> t <> C.NUL -> C.tolower t <> "h" ->
  is_word w = true -> w <> [] ->
  C.isspace sp = true -> ~ In C.NUL (sp :: tail) ->
  Z.of_nat (length (t :: " " :: w ++ sp :: tail)) <= BUFFER_SIZE - 1 ->
  exists r,
    asks_for r t w /\
    handle_user_input ((t :: " " :: w ++ sp :: tail) :: rest) request
    = (Some (match C.skip_space tail with
             | [] => control_type allowed_types t
                     && control_length w MIN_PASSWORD_LENGTH MAX_PASSWORD_LENGTH
             | _ => false
             end, r), rest).
Proof.
  intros Ht Hnul Hh Hw Hne Hsp Htail Hlen.
  assert (Hline : ~ In C.NUL (t :: " " :: w ++ sp :: tail)).
  { intros [E|[E|Hin]]; [congruence | discriminate |].
    apply in_app_or in Hin. destruct Hin as [Hin|Hin];
      [exact (is_word_no_NUL w Hw Hin) | exact (Htail Hin)]. }
  assert (Hwlen : (length w < Z.to_nat (BUFFER_SIZE - 1))%nat).
  { cbn [length] in Hlen. rewrite length_app in Hlen. lia. }
  cbn [handle_user_input].
  rewrite (input_line_short _ Hline Hlen).
  unfold scan_user_input.
  rewrite (sscanf_two_words t sp w tail Ht Hnul Hw Hne Hsp Htail).
  change (default (PasswordRequest.type request) (Some t)) with t.
  cbn [PasswordRequest.type].
  destruct (Ascii.eqb_spec (C.tolower t) "h") as [E|_]; [contradiction|].
  set (r := PasswordRequest.mk t
              (<[Z.to_nat (BUFFER_SIZE - 1) := C.NUL]>
                 (strcpy (PasswordRequest.length request) w))).
  assert (Hstr : C.c_str (PasswordRequest.length r) = w)
    by (apply c_str_stored_word; [exact (is_word_no_NUL w Hw) | exact Hwlen]).
  exists r. split; [split; [reflexivity | exact Hstr]|].
  destruct (C.skip_space tail) as [|x tail'].
  - rewrite check_user_input_two. cbn [PasswordRequest.type r].
    rewrite (control_length_c_str (PasswordRequest.length r) w).
    + reflexivity.
    + rewrite Hstr. symmetry. apply c_str_without_NUL.
      exact (is_word_no_NUL w Hw).
  - reflexivity.
Qed.

(** X9.  A line with a type and a length is accepted exactly when the type is
    in "namsuq" and the length passes [control_length]; either way the request
    is left with the type and the length text as typed.  (The type is any
    character but white space, NUL and the help letter; the length is any
    word; the line fits the input buffer.) *)
Theorem handle_user_input_command t w rest request :
  C.isspace t = false -> t <> C.NUL -> C.tolower t <> "h" ->
  is_word w = true -> w <> [] ->
  Z.of_nat (length (command_line t w)) <= BUFFER_SIZE - 1 ->
  exists r,
    asks_for r t w /\
    handle_user_input (command_line t w :: rest) request
    = (Some (control_type allowed_types t
             && control_length w MIN_PASSWORD_LENGTH MAX_PASSWORD_LENGTH, r),
       rest).
Proof.
  intros Ht Hnul Hh Hw Hne Hlen.
  apply (handle_user_input_two_words t newline w [] rest request);
    try assumption; try reflexivity.
  intros [E|[]]. discriminate.
Qed.

(** X10.  A line with a word after the length is rejected, whatever the type
    and the length are: [handle_user_input] answers false when [sscanf]
    assigns three items. *)
Theorem handle_user_input_extra_word t w x rest request :
  C.isspace t = false -> t <> C.NUL -> C.tolower t <> "h" ->
  is_word w = true -> w <> [] ->
  is_word x = true -> x <> [] ->
  Z.of_nat (length (long_command_line t w x)) <= BUFFER_SIZE - 1 ->
  exists r,
    handle_user_input (long_command_line t w x :: rest) request
    = (Some (false, r), rest).
Proof.
  intros Ht Hnul Hh Hw Hne Hx Hxne Hlen.
  destruct (handle_user_input_two_words t " " w (x ++ [newline]) rest request)
    as (r & _ & E); try assumption; try reflexivity.
  - intros [E|Hin]; [discriminate|].
    apply in_app_or in Hin. destruct Hin as [Hin|[E|[]]];
      [exact (is_word_no_NUL x Hx Hin) | discriminate].
  - exists r. unfold long_command_line. rewrite E.
    rewrite (skip_space_word x [newline] Hx Hxne).
    destruct x; [congruence | reflexivity].
Qed.

Lemma handle_user_input_type_line t rest request :
  C.isspace t = false -> t <> C.NUL -> C.tolower t <> "h" ->
  exists r,
    asks_for r t (C.lit "8") /\
    handle_user_input (type_line t :: rest) request
    = (Some (control_type allowed_types t, r), rest).
Proof.
  intros Ht Hnul Hh.
  assert (Hline : ~ In C.NUL (type_line t))
    by (intros [E|[E|[]]]; [congruence | discriminate]).
  cbn [handle_user_input].
  rewrite (input_line_short _ Hline) by (vm_compute; discriminate).
  unfold scan_user_input. rewrite (sscanf_type_line t Ht Hnul).
  change (default (PasswordRequest.type request) (Some t)) with t.
  cbn [PasswordRequest.type].
  destruct (Ascii.eqb_spec (C.tolower t) "h") as [E|_]; [contradiction|].
  unfold check_user_input. cbn [Z.eqb Pos.eqb PasswordRequest.type PasswordRequest.length].
  set (array := <[Z.to_nat (BUFFER_SIZE - 1) := C.NUL]> (PasswordRequest.length request)).
  assert (Hstr : C.c_str (strcpy array (C.lit "8")) = C.lit "8").
  { unfold strcpy. apply c_str_app_NUL. intros [E|[]]. discriminate. }
  exists (PasswordRequest.mk t (strcpy array (C.lit "8"))).
  split; [split; [reflexivity | exact Hstr]|].
  rewrite (control_length_c_str (strcpy array (C.lit "8")) (C.lit "8"))
    by exact Hstr.
  change (control_length (C.lit "8") MIN_PASSWORD_LENGTH MAX_PASSWORD_LENGTH)
    with true.
  destruct (control_type allowed_types t); reflexivity.
Qed.

(** X11.  A line with a type alone asks for the default length 8: it is
    accepted exactly when the type is in "namsuq", and the request is left
    with the type as typed and the length text "8". *)
Theorem handle_user_input_default_length t rest request :
  C.isspace t = false -> t <> C.NUL -> C.tolower t <> "h" ->
  exists r,
    asks_for r t (C.lit "8") /\
    handle_user_input (type_line t :: rest) request
    = (Some (control_type allowed_types t, r), rest).
Proof. apply handle_user_input_type_line. Qed.

(* ------------------------------------------------------------------------- *)
(** ** What the client does with a command *)

Lemma class_letter_facts (t : ascii) :
  In t (C.lit "namsu") ->
  C.isspace t = false /\ t <> C.NUL /\ C.tolower t <> "h" /\
  control_type allowed_types t = true /\ keep_generating t "q" = true.
Proof.
  cbn [C.lit list_ascii_of_string In].
  intros [<-|[<-|[<-|[<-|[<-|[]]]]]]; repeat split; discriminate.
Qed.

Lemma newline_no_NUL : ~ In C.NUL [newline].
Proof. intros [E|[]]. discriminate. Qed.

Lemma accepted_length_not_empty (w : list ascii) :
  control_length w MIN_PASSWORD_LENGTH MAX_PASSWORD_LENGTH = true -> w <> [].
Proof. intros H ->. discriminate. Qed.

(** The events of a pass that sends start with the request. *)
Lemma client_loop_sends_first fuel inputs net k request response r rest :
  handle_user_input inputs request = (Some (true, r), rest) ->
  keep_generating (PasswordRequest.type r) "q" = true ->
  exists events e,
    client_loop (Datatypes.S fuel) inputs net k request response
    = (SendTo (request_image r) :: events, e).
Proof.
  intros E Hk. cbn [client_loop]. rewrite E, Hk. cbn [negb].
  unfold send_request.
  destruct (sent (net k) =? REQUEST_SIZE); cbn [negb]; [|eauto].
  destruct (receive_response response (reply (net k))) as [[received response1] ev2].
  destruct received; cbn [negb]; [|cbn [app]; eauto].
  destruct (client_loop fuel rest net (Datatypes.S k) r response1) as [events e].
  cbn [app]. eauto.
Qed.

(** X12.  A valid command is sent as typed: when the line holds one of the
    letters n, a, m, s, u and a length that passes [control_length], the first
    thing the client does on the network is to send a request with that type
    and that length text. *)
Theorem client_sends_valid_command t w rest net request response :
  In t (C.lit "namsu") ->
  is_word w = true ->
  control_length w MIN_PASSWORD_LENGTH MAX_PASSWORD_LENGTH = true ->
  Z.of_nat (length (command_line t w)) <= BUFFER_SIZE - 1 ->
  exists r events e,
    asks_for r t w /\
    client_main (command_line t w :: rest) net request response
    = (SendTo (request_image r) :: events, e).
Proof.
  intros Ht Hw Hlen Hfit.
  destruct (class_letter_facts t Ht) as (Hsp & Hnul & Hh & Hct & Hkeep).
  destruct (handle_user_input_two_words t newline w [] rest request
              Hsp Hnul Hh Hw (accepted_length_not_empty w Hlen) eq_refl
              newline_no_NUL Hfit)
    as (r & Hr & E).
  cbn [C.skip_space] in E. rewrite Hct, Hlen in E. cbn [andb] in E.
  destruct (client_loop_sends_first (length (command_line t w :: rest))
              (command_line t w :: rest) net 0%nat request response r rest E)
    as (events & e & Hrun).
  { destruct Hr as [-> _]. exact Hkeep. }
  exists r, events, e. split; [exact Hr | exact Hrun].
Qed.


(* ------------------------------------------------------------------------- *)
(** ** From the client's request to the password it receives *)

Lemma control_length_atoi_range (text : list ascii) (min_length max_length : Z) :
  control_length text min_length max_length = true ->
  min_length <= C.atoi text <= max_length.
Proof.
  unfold control_length. destruct (only_digits text); [|discriminate].
  intros H. apply andb_prop in H. lia.
Qed.

(** The array after a call that fits: the characters drawn, of the set of the
    type and none of them NUL, the terminator, the old tail. *)
Lemma generate_password_string {S : Type} (rand : S -> Z * S) st password type len :
  (forall s, 0 <= fst (rand s)) ->
  0 <= len < Z.of_nat (length password) ->
  exists st1 cs,
    generate_password rand st password type len
    = Done st1 (cs ++ C.NUL :: drop (Datatypes.S (Z.to_nat len)) password) /\
    length cs = Z.to_nat len /\
    Forall (fun c => In c (charsetFor type)) cs /\
    C.c_str (cs ++ C.NUL :: drop (Datatypes.S (Z.to_nat len)) password) = cs.
Proof.
  intros Hnn Hlen. rewrite generate_password_fits by exact Hlen.
  pose proof (draws_length (char_for rand type) (Z.to_nat len) st) as Hn.
  pose proof (drawn_in_charset S rand Hnn type (Z.to_nat len) st) as Hset.
  pose proof (drawn_no_NUL S rand Hnn type (Z.to_nat len) st) as Hnul.
  destruct (draws (char_for rand type) (Z.to_nat len) st) as [cs st1].
  cbn [fst snd] in *. exists st1, cs.
  split; [reflexivity|]. split; [exact Hn|]. split; [exact Hset|].
  now apply c_str_app_NUL.
Qed.

Lemma generated_length (cs password : list ascii) (n : nat) :
  length cs = n -> (n < length password)%nat ->
  length (cs ++ C.NUL :: drop (Datatypes.S n) password) = length password.
Proof.
  intros Hn Hlt. rewrite length_app. cbn [length]. rewrite length_drop. lia.
Qed.

(** The server's pass on the image of a request whose length text passed
    [control_length]. *)
Lemma server_serves {S : Type} (rand : S -> Z * S) st stale r response sent :
  (forall s, 0 <= fst (rand s)) ->
  request_wf stale -> request_wf r -> response_wf response ->
  control_length (PasswordRequest.length r)
                 MIN_PASSWORD_LENGTH MAX_PASSWORD_LENGTH = true ->
  exists st1 password1,
    server_iteration rand st stale response (Datagram (request_image r)) sent
    = ([SendTo password1],
       if sent =? RESPONSE_SIZE then Continue st1 else Exit EXIT_FAILURE) /\
    response_wf (PasswordResponse.mk password1) /\
    Z.of_nat (C.strlen password1) = C.atoi (PasswordRequest.length r) /\
    MIN_PASSWORD_LENGTH <= C.atoi (PasswordRequest.length r) <= MAX_PASSWORD_LENGTH /\
    Forall (fun c => In c (charsetFor (password_type_of (PasswordRequest.type r))))
           (C.c_str password1).
Proof.
  intros Hnn Hstale Hr Hresp Hlen.
  apply control_length_atoi_range in Hlen.
  unfold response_wf, RESPONSE_SIZE in Hresp.
  unfold MIN_PASSWORD_LENGTH, MAX_PASSWORD_LENGTH in *.
  unfold server_iteration. rewrite receive_request_full by assumption.
  cbn [negb]. unfold handle_password_request.
  destruct (generate_password_string rand st (PasswordResponse.password response)
              (password_type_of (PasswordRequest.type r))
              (C.atoi (PasswordRequest.length r)) Hnn)
    as (st1 & cs & E & Hn & Hset & Hstr); [lia|].
  rewrite E. unfold send_response, response_image. cbn [PasswordResponse.password].
  eexists st1, _. split.
  { destruct (sent =? RESPONSE_SIZE); reflexivity. }
  split.
  { unfold response_wf, RESPONSE_SIZE. cbn [PasswordResponse.password].
    rewrite (generated_length cs _ _ Hn) by lia. exact Hresp. }
  split; [unfold C.strlen; rewrite Hstr; lia|].
  split; [lia|]. now rewrite Hstr.
Qed.

Lemma client_loop_sends_servable (fuel : nat) :
  forall inputs net k request response,
    request_wf request ->
    Forall servable_event (fst (client_loop fuel inputs net k request response)).
Proof.
  induction fuel as [|fuel IH]; intros inputs net k request response Hwf.
  - constructor.
  - cbn [client_loop].
    destruct (handle_user_input inputs request) as [[[ok r]|] rest] eqn:E;
      [|constructor].
    destruct (handle_user_input_terminated inputs request ok r rest Hwf E)
      as [Hr _].
    destruct ok; [|now apply IH].
    destruct (handle_user_input_true inputs request r rest E) as (_ & _ & Hl).
    assert (Hev : servable_event (SendTo (request_image r)))
      by (exists r; auto).
    destruct (keep_generating (PasswordRequest.type r) "q"); cbn [negb];
      [|constructor].
    unfold send_request.
    destruct (sent (net k) =? REQUEST_SIZE); cbn [negb fst].
    + unfold receive_response.
      destruct (recvfrom (response_image response) (reply (net k))) as [n image].
      destruct (n <? 0); cbn [negb].
      * cbn. repeat constructor. exact Hev.
      * specialize (IH rest net (Datatypes.S k) r (response_of_image image) Hr).
        destruct (client_loop fuel rest net (Datatypes.S k) r (response_of_image image))
          as [events e].
        cbn. constructor; [exact Hev|]. constructor; [exact I | exact IH].
    + repeat constructor. exact Hev.
Qed.

(** X14.  Every request the client sends is served.  Take any datagram the
    client sends in any run that starts with a length array of the right
    size.  A pass of the server's loop that receives it, with any generator
    whose [rand()] is not negative, stays inside the password array and sends
    one response of 33 bytes; the response holds a string of the length the
    request asks for, between 6 and 32, over the character set of the type
    asked for, and the client's [receive_response] stores that response. *)
Theorem client_requests_are_served
        inputs net request response datagram
        {S : Type} (rand : S -> Z * S) st stale server_response server_sent
        client_response :
  request_wf request ->
  In (SendTo datagram) (fst (client_main inputs net request response)) ->
  (forall s, 0 <= fst (rand s)) ->
  request_wf stale -> response_wf server_response ->
  response_wf client_response ->
  exists st1 password1,
    server_iteration rand st stale server_response (Datagram datagram) server_sent
    = ([SendTo password1],
       if server_sent =? RESPONSE_SIZE then Continue st1 else Exit EXIT_FAILURE) /\
    MIN_PASSWORD_LENGTH
      <= C.atoi (PasswordRequest.length (request_of_image datagram))
      <= MAX_PASSWORD_LENGTH /\
    Z.of_nat (C.strlen password1)
    = C.atoi (PasswordRequest.length (request_of_image datagram)) /\
    Forall (fun c => In c (charsetFor (password_type_of
                                         (PasswordRequest.type
                                            (request_of_image datagram)))))
           (C.c_str password1) /\
    receive_response client_response (Datagram password1)
    = (true, PasswordResponse.mk password1, [RecvFrom RESPONSE_SIZE]).
Proof.
  intros Hwf Hin Hnn Hstale Hsresp Hcresp.
  pose proof (client_loop_sends_servable (Datatypes.S (length inputs))
                inputs net 0%nat request response Hwf) as Hall.
  rewrite List.Forall_forall in Hall.
  destruct (Hall _ Hin) as (r & -> & Hr & Hlen).
  rewrite request_of_image_image.
  destruct (server_serves rand st stale r server_response server_sent
              Hnn Hstale Hr Hsresp Hlen)
    as (st1 & password1 & Hrun & Hsize & Hstrlen & Hrange & Hset).
  exists st1, password1.
  split; [exact Hrun|]. split; [exact Hrange|]. split; [exact Hstrlen|].
  split; [exact Hset|].
  exact (receive_response_full client_response (PasswordResponse.mk password1)
           Hcresp Hsize).
Qed.

(* ------------------------------------------------------------------------- *)
(** ** The server does not check the length text *)




(* ------------------------------------------------------------------------- *)
(** ** The client's run on the network *)

Lemma client_loop_alternating (fuel : nat) :
  forall inputs net k request response,
    alternating (fst (client_loop fuel inputs net k request response)) = true.
Proof.
  induction fuel as [|fuel IH]; intros inputs net k request response.
  - reflexivity.
  - cbn [client_loop].
    destruct (handle_user_input inputs request) as [[[[|] r]|] rest];
      [| apply IH | reflexivity].
    destruct (negb (keep_generating (PasswordRequest.type r) "q")); [reflexivity|].
    unfold send_request.
    destruct (negb (sent (net k) =? REQUEST_SIZE)); [reflexivity|].
    unfold receive_response.
    destruct (recvfrom (response_image response) (reply (net k))) as [n image].
    destruct (n <? 0); cbn [negb]; [reflexivity|].
    specialize (IH rest net (Datatypes.S k) r (response_of_image image)).
    destruct (client_loop fuel rest net (Datatypes.S k) r (response_of_image image))
      as [events e].
    exact IH.
Qed.

(** X16.  One request is in flight at a time: in every run of the client the
    network events are pairs of a send and the receive that follows it, with
    at most one send left without receive at the end (when [sendto] failed).
    The client never sends twice in a row and never receives without having
    sent. *)
Theorem client_one_request_in_flight inputs net request response :
  alternating (fst (client_main inputs net request response)) = true.
Proof. apply client_loop_alternating. Qed.

Lemma client_loop_return_code (fuel : nat) :
  forall inputs net k request response,
    network_works net ->
    snd (client_loop fuel inputs net k request response) <> Returned EXIT_FAILURE.
Proof.
  induction fuel as [|fuel IH]; intros inputs net k request response Hnet.
  - discriminate.
  - cbn [client_loop].
    destruct (handle_user_input inputs request) as [[[[|] r]|] rest];
      [| now apply IH | discriminate].
    destruct (negb (keep_generating (PasswordRequest.type r) "q")); [discriminate|].
    destruct (Hnet k) as [Hsent [bytes Hreply]].
    unfold send_request. rewrite Hsent, Z.eqb_refl. cbn [negb].
    unfold receive_response. rewrite Hreply.
    pose proof (recvfrom_datagram_nonneg (response_image response) bytes) as Hn.
    destruct (recvfrom (response_image response) (Datagram bytes)) as [n image].
    cbn [fst] in Hn. destruct (Z.ltb_spec n 0); [lia|]. cbn [negb].
    specialize (IH rest net (Datatypes.S k) r (response_of_image image) Hnet).
    destruct (client_loop fuel rest net (Datatypes.S k) r (response_of_image image))
      as [events e].
    exact IH.
Qed.

(** X17.  With a network that works ([sendto] sends the whole request,
    [recvfrom] delivers a datagram of any size) the client never exits with
    EXIT_FAILURE, whatever the user types: a run ends with EXIT_SUCCESS or is
    waiting for the next line. *)
Theorem client_fails_only_on_network inputs net request response :
  network_works net ->
  snd (client_main inputs net request response) = Returned EXIT_SUCCESS \/
  snd (client_main inputs net request response) = Waiting.
Proof.
  intros Hnet.
  pose proof (client_loop_return_code (Datatypes.S (length inputs))
                inputs net 0%nat request response Hnet) as Hcode.
  pose proof (client_loop_fuel (Datatypes.S (length inputs))
                inputs net 0%nat request response (Nat.lt_succ_diag_r _)) as Hfuel.
  assert (Hcodes : forall fuel inputs' k request' response',
             match snd (client_loop fuel inputs' net k request' response') with
             | Returned c => c = EXIT_SUCCESS \/ c = EXIT_FAILURE
             | _ => True
             end).
  { induction fuel as [|fuel IH]; intros inputs' k request' response'; [exact I|].
    cbn [client_loop].
    destruct (handle_user_input inputs' request') as [[[[|] r]|] rest];
      [| apply IH | exact I].
    destruct (negb (keep_generating (PasswordRequest.type r) "q")); [now left|].
    unfold send_request.
    destruct (negb (sent (net k) =? REQUEST_SIZE)); [now right|].
    destruct (receive_response response' (reply (net k))) as [[received response1] ev2].
    destruct (negb received); [now right|].
    specialize (IH rest (Datatypes.S k) r response1).
    destruct (client_loop fuel rest net (Datatypes.S k) r response1) as [events e].
    exact IH. }
  specialize (Hcodes (Datatypes.S (length inputs)) inputs 0%nat request response).
  unfold client_main.
  destruct (snd (client_loop (Datatypes.S (length inputs)) inputs net 0 request response))
    as [c| |]; [|now right|congruence].
  destruct Hcodes as [->| ->]; [now left | congruence].
Qed.

(* ------------------------------------------------------------------------- *)
(** ** The server's passes *)






(* ------------------------------------------------------------------------- *)
(** ** libs/utils/utils.c *)

Lemma color_cases (c : Z) :
  BLACK <= c <= RESET ->
  c = BLACK \/ c = RED \/ c = GREEN \/ c = YELLOW \/ c = BLUE \/
  c = MAGENTA \/ c = CYAN \/ c = WHITE \/ c = RESET.
Proof.
  unfold BLACK, RED, GREEN, YELLOW, BLUE, MAGENTA, CYAN, WHITE, RESET. lia.
Qed.

(** X20.  The colours have escape codes of their own: two values of
    [textColor] with the same code are the same value, and every value
    outside the enumeration gets the code of RESET. *)
Theorem ansi_color_codes :
  (forall c1 c2,
      BLACK <= c1 <= RESET -> BLACK <= c2 <= RESET ->
      generate_ansi_color_code c1 = generate_ansi_color_code c2 -> c1 = c2) /\
  (forall c,
      c < BLACK \/ RESET < c ->
      generate_ansi_color_code c = generate_ansi_color_code RESET).
Proof.
  split.
  - intros c1 c2 H1 H2.
    destruct (color_cases c1 H1) as [->|[->|[->|[->|[->|[->|[->|[->| ->]]]]]]]];
      destruct (color_cases c2 H2) as [->|[->|[->|[->|[->|[->|[->|[->| ->]]]]]]]];
      vm_compute; intros E; try reflexivity; discriminate.
  - intros c Hc. unfold generate_ansi_color_code.
    unfold BLACK, RED, GREEN, YELLOW, BLUE, MAGENTA, CYAN, WHITE, RESET in *.
    repeat match goal with
           | |- context [?a =? ?b] =>
               destruct (Z.eqb_spec a b); [lia|]
           end.
    reflexivity.
Qed.

(* ------------------------------------------------------------------------- *)
(** ** The further statements at concrete inputs *)

(** X5 at the sample generator: seed 1, type MIXED, length 6. *)
Lemma generate_password_calls_of_rand_witness :
  exists st1 password1,
    generate_password sample_rand 1 (PasswordResponse.password blank_response)
                      MIXED 6 = Done st1 password1 /\
    st1 = rand_state sample_rand (calls_per_char MIXED * Z.to_nat 6) 1.
Proof.
  eexists _, _.
  assert (E : generate_password sample_rand 1
                (PasswordResponse.password blank_response) MIXED 6
              = Done _ _) by (vm_compute; reflexivity).
  split; [exact E|].
  exact (generate_password_calls_of_rand sample_rand 1
           (PasswordResponse.password blank_response) MIXED 6 _ _ E).
Defined.

(** X6 for the string "2024" of type NUMERIC. *)
Lemma generate_password_reaches_witness :
  (Forall (fun c => In c (charsetFor NUMERIC)) (C.lit "2024") /\
   (length (C.lit "2024") < length (PasswordResponse.password blank_response))%nat) /\
  exists rs : list Z,
    Forall (fun r => 0 <= r) rs /\
    generate_password scripted_rand rs (PasswordResponse.password blank_response)
                      NUMERIC (Z.of_nat (length (C.lit "2024")))
    = Done [] (C.lit "2024"
                 ++ C.NUL :: drop (Datatypes.S (length (C.lit "2024")))
                                  (PasswordResponse.password blank_response)).
Proof.
  assert (H1 : Forall (fun c => In c (charsetFor NUMERIC)) (C.lit "2024")).
  { repeat constructor; apply mem_In; reflexivity. }
  assert (H2 : (length (C.lit "2024")
                < length (PasswordResponse.password blank_response))%nat)
    by (vm_compute; lia).
  split; [split; assumption|].
  exact (generate_password_reaches NUMERIC (C.lit "2024")
           (PasswordResponse.password blank_response) H1 H2).
Defined.

(** X7 at a blank request and a datagram of 2000 bytes. *)
Lemma receive_keeps_record_size_witness :
  request_wf blank_request /\
  request_wf (snd (receive_request blank_request (Datagram (repeat "x"%char 2000)))).
Proof.
  assert (H : request_wf blank_request) by reflexivity.
  split; [exact H|].
  exact (proj1 receive_keeps_record_size blank_request
           (Datagram (repeat "x"%char 2000)) H).
Defined.

(** X8 on the line "n 12" from a blank request. *)
Lemma handle_user_input_keeps_length_array_witness :
  request_wf blank_request /\
  exists ok r rest,
    handle_user_input [command_line "n" (C.lit "12")] blank_request
    = (Some (ok, r), rest) /\
    request_wf r /\
    PasswordRequest.length r !! Z.to_nat (BUFFER_SIZE - 1) = Some C.NUL.
Proof.
  assert (H : request_wf blank_request) by reflexivity.
  split; [exact H|].
  eexists _, _, _.
  assert (E : handle_user_input [command_line "n" (C.lit "12")] blank_request
              = (Some (_, _), _)) by (vm_compute; reflexivity).
  split; [exact E|].
  exact (handle_user_input_keeps_length_array _ blank_request _ _ _ H E).
Defined.

(** X9 on the type [n] and the word "12". *)
Lemma handle_user_input_command_witness :
  exists r,
    asks_for r "n" (C.lit "12") /\
    handle_user_input [command_line "n" (C.lit "12")] blank_request
    = (Some (control_type allowed_types "n"
             && control_length (C.lit "12") MIN_PASSWORD_LENGTH MAX_PASSWORD_LENGTH,
             r), []).
Proof.
  apply (handle_user_input_command "n" (C.lit "12") [] blank_request);
    first [reflexivity | vm_compute; discriminate].
Defined.

(** X10 on the line "n 12 x". *)
Lemma handle_user_input_extra_word_witness :
  exists r,
    handle_user_input [long_command_line "n" (C.lit "12") (C.lit "x")] blank_request
    = (Some (false, r), []).
Proof.
  apply (handle_user_input_extra_word "n" (C.lit "12") (C.lit "x") [] blank_request);
    first [reflexivity | vm_compute; discriminate].
Defined.

(** X11 on the line "a". *)
Lemma handle_user_input_default_length_witness :
  exists r,
    asks_for r "a" (C.lit "8") /\
    handle_user_input [type_line "a"] blank_request
    = (Some (control_type allowed_types "a", r), []).
Proof.
  apply (handle_user_input_default_length "a" [] blank_request);
    first [reflexivity | vm_compute; discriminate].
Defined.

(** X12 on the line "u 10". *)
Lemma client_sends_valid_command_witness :
  exists r events e,
    asks_for r "u" (C.lit "10") /\
    client_main [command_line "u" (C.lit "10")] working_net
                blank_request blank_response
    = (SendTo (request_image r) :: events, e).
Proof.
  apply (client_sends_valid_command "u" (C.lit "10") [] working_net
           blank_request blank_response);
    first [reflexivity | apply mem_In; reflexivity | vm_compute; discriminate].
Defined.


(** X14 on the run of the client for the line "s 12" and the sample
    generator on the server. *)
Lemma client_requests_are_served_witness :
  exists datagram,
    In (SendTo datagram)
       (fst (client_main [command_line "s" (C.lit "12")] working_net
                         blank_request blank_response)) /\
    exists st1 password1,
      server_iteration sample_rand 1 blank_request blank_response
                       (Datagram datagram) RESPONSE_SIZE
      = ([SendTo password1],
         if RESPONSE_SIZE =? RESPONSE_SIZE then Continue st1 else Exit EXIT_FAILURE) /\
      MIN_PASSWORD_LENGTH
        <= C.atoi (PasswordRequest.length (request_of_image datagram))
        <= MAX_PASSWORD_LENGTH /\
      Z.of_nat (C.strlen password1)
      = C.atoi (PasswordRequest.length (request_of_image datagram)) /\
      Forall (fun c => In c (charsetFor (password_type_of
                                           (PasswordRequest.type
                                              (request_of_image datagram)))))
             (C.c_str password1) /\
      receive_response blank_response (Datagram password1)
      = (true, PasswordResponse.mk password1, [RecvFrom RESPONSE_SIZE]).
Proof.
  eexists.
  assert (Hin : In (SendTo _)
                   (fst (client_main [command_line "s" (C.lit "12")] working_net
                                     blank_request blank_response)))
    by (vm_compute; left; reflexivity).
  split; [exact Hin|].
  exact (client_requests_are_served
           [command_line "s" (C.lit "12")] working_net blank_request blank_response
           _ sample_rand 1 blank_request blank_response RESPONSE_SIZE blank_response
           eq_refl Hin sample_rand_nonneg eq_refl eq_refl eq_refl).
Defined.


(** X17 with the network that works and the lines "n 8", "bad", "q". *)
Lemma client_fails_only_on_network_witness :
  network_works working_net /\
  (snd (client_main [command_line "n" (C.lit "8"); C.lit "bad"; type_line "q"]
                    working_net blank_request blank_response)
   = Returned EXIT_SUCCESS \/
   snd (client_main [command_line "n" (C.lit "8"); C.lit "bad"; type_line "q"]
                    working_net blank_request blank_response)
   = Waiting).
Proof.
  assert (H : network_works working_net).
  { intros k. split; [reflexivity|]. exists []. reflexivity. }
  split; [exact H|].
  exact (client_fails_only_on_network _ working_net blank_request blank_response H).
Defined.



(** X20 on the value 9, which is outside the enumeration. *)
Lemma ansi_color_codes_witness :
  (9 < BLACK \/ RESET < 9) /\
  generate_ansi_color_code 9 = generate_ansi_color_code RESET.
Proof.
  assert (H : 9 < BLACK \/ RESET < 9) by (right; unfold RESET; lia).
  split; [exact H|].
  exact (proj2 ansi_color_codes 9 H).
Defined.





